(** * SpoolmanSync: entity patterns and the webhook handler

    A shallow embedding of [src/lib/entity-patterns.ts] (module
    [EntityPatterns]: the name tables, the pattern builders and the
    exported functions) and of [src/app/api/webhook/route.ts] (module
    [Webhook]: the [POST] handler and the [GET] documentation), followed by
    the properties the specification states about them and by further
    properties of the code.

    - Entity identifiers are strings; the regular expressions of the source
      are written out as matchers on lists of characters, a match being
      given by its capture groups.
    - The handler is a function in a state and exception monad: the state
      holds the activity log, the calls made on the inventory client and
      the events emitted; what the request and the inventory service answer
      is a parameter of the run.
    - JavaScript numbers are binary64 floats; a tray number is a natural
      number, rendered in decimal. *)

From Stdlib Require Import Ascii String List Bool Arith ZArith Lia Floats.
From stdpp Require Import base list strings gmap pretty.

Local Open Scope stdpp_scope.

(** Strings are sequences of bytes (the UTF-8 encoding of the JavaScript
    string); the functions below work on the list of characters. *)
Abbreviation chars := String.list_ascii_of_string.
Abbreviation text := String.string_of_list_ascii.

(* ================================================================== *)
(** ** Entity patterns ([entity-patterns.ts]) *)
(* ================================================================== *)

Module EntityPatterns.

(** Localized suffixes of the print_status sensor. *)
Definition PRINT_STATUS_SUFFIXES : list string :=
  [ "print_status"            (* English *)
  ; "druckstatus"             (* German *)
  ; "printstatus"             (* Dutch *)
  ; "estado_de_la_impresion"  (* Spanish *)
  ; "stato_di_stampa"         (* Italian *)
  ].

Inductive SupportedLanguage := en | de | nl | es | it.

(** The entries of the object literal, in insertion order (the order
    [Object.entries] enumerates them in). *)
Definition PRINT_STATUS_TO_LANGUAGE : list (string * SupportedLanguage) :=
  [ ("print_status", en)
  ; ("druckstatus", de)
  ; ("printstatus", nl)
  ; ("estado_de_la_impresion", es)
  ; ("stato_di_stampa", it)
  ].

(** *** String and regular-expression primitives *)

(** [s.startsWith(p)] and [s.endsWith(p)]. *)
Definition startsWith (s p : string) : bool :=
  bool_decide (chars p `prefix_of` chars s).

Definition endsWith (s p : string) : bool :=
  bool_decide (chars p `suffix_of` chars s).

(** The class [\d]: the ten ASCII digits. *)
Definition is_digit (c : ascii) : bool :=
  (48 <=? nat_of_ascii c)%nat && (nat_of_ascii c <=? 57)%nat.

(** [_\d+$] against the whole remaining input. *)
Definition version_suffix (t : list ascii) : bool :=
  match t with
  | c :: d :: ds => bool_decide (c = "_"%char) && forallb is_digit (d :: ds)
  | _ => false
  end.

(** [(?:_\d+)?$] against the whole remaining input. *)
Definition opt_version_suffix (t : list ascii) : bool :=
  match t with
  | [] => true
  | _ => version_suffix t
  end.

(** A literal at the head of the input: what is left after it. *)
Definition after_literal (lit t : list ascii) : option (list ascii) :=
  if bool_decide (lit `prefix_of` t) then Some (drop (length lit) t) else None.

(** [_${suffix}_\d+$] and [_${suffix}(?:_\d+)?$] tried at the head of [t]. *)
Definition numbered_at (suffix : string) (t : list ascii) : bool :=
  match after_literal (chars ("_" +:+ suffix)) t with
  | Some v => version_suffix v
  | None => false
  end.

Definition opt_numbered_at (suffix : string) (t : list ascii) : bool :=
  match after_literal (chars ("_" +:+ suffix)) t with
  | Some v => opt_version_suffix v
  | None => false
  end.

(** A pattern without [^] is tried at every position, left to right. *)
Fixpoint search (m : list ascii -> bool) (s : list ascii) : bool :=
  m s ||
  match s with
  | [] => false
  | _ :: s' => search m s'
  end.

(** [s.replace(re, '')] for a pattern [re] that ends in [$]: the leftmost
    match runs to the end of the input, so what stays is what precedes it. *)
Fixpoint replace_to_end (m : list ascii -> bool) (s : list ascii) : list ascii :=
  if m s then []
  else match s with
       | [] => []
       | c :: s' => c :: replace_to_end m s'
       end.

(** [entityId.match(new RegExp(`_${suffix}_\\d+$`))] is not null. *)
Definition matches_numbered (entityId suffix : string) : bool :=
  search (numbered_at suffix) (chars entityId).

(** [.] matches any character but a line terminator: LF, CR, U+2028 and
    U+2029 (in UTF-8: E2 80 A8 and E2 80 A9). *)
Definition line_terminator_at (s : list ascii) : bool :=
  match s with
  | c :: rest =>
      bool_decide (c = "010"%char) || bool_decide (c = "013"%char) ||
      match rest with
      | b :: d :: _ =>
          bool_decide (c = "226"%char) && bool_decide (b = "128"%char) &&
          (bool_decide (d = "168"%char) || bool_decide (d = "169"%char))
      | _ => false
      end
  | [] => false
  end.

(** [_(?:s1|s2|...)(?:_\d+)?$]: the part of [buildPrintStatusPattern] after
    the capture group. *)
Definition status_tail (t : list ascii) : bool :=
  existsb (fun suffix => opt_numbered_at suffix t) PRINT_STATUS_SUFFIXES.

(** [(.+?)] followed by [status_tail]: the shortest non-empty group after
    which the rest of the pattern matches. *)
Fixpoint lazy_capture (rest : list ascii) : option (list ascii) :=
  match rest with
  | [] => None
  | c :: rest' =>
      if line_terminator_at rest then None
      else if status_tail rest' then Some [c]
      else cons c <$> lazy_capture rest'
  end.

(** [entityId.match(buildPrintStatusPattern())]: capture group 1 of
    [^sensor\.(.+?)_(?:...)(?:_\d+)?$], or [None] for null. *)
Definition match_print_status (entityId : string) : option (list ascii) :=
  match after_literal (chars "sensor.") (chars entityId) with
  | Some rest => lazy_capture rest
  | None => None
  end.

(** *** The exported functions *)

Definition isPrintStatusEntity (entityId : string) : bool :=
  if negb (startsWith entityId "sensor.") then false
  else existsb (fun suffix =>
                  endsWith entityId ("_" +:+ suffix) ||
                  matches_numbered entityId suffix)
               PRINT_STATUS_SUFFIXES.

(** The fallback loop: every known pattern is stripped in turn. *)
Definition strip_known (suffixes : list string) (result : list ascii) :=
  fold_left (fun result suffix =>
               replace_to_end (opt_numbered_at suffix) result)
            suffixes result.

Definition extractPrinterPrefix (entityId : string) : string :=
  match match_print_status entityId with
  | Some g => text g
  | None =>
      (* Fallback: strip known patterns *)
      let result :=
        match after_literal (chars "sensor.") (chars entityId) with
        | Some rest => rest
        | None => chars entityId
        end in
      text (strip_known PRINT_STATUS_SUFFIXES result)
  end.

Definition detectLanguageFromEntity (entityId : string) : SupportedLanguage :=
  match find (fun '(suffix, _) =>
                endsWith entityId ("_" +:+ suffix) ||
                matches_numbered entityId suffix)
             PRINT_STATUS_TO_LANGUAGE with
  | Some (_, lang) => lang
  | None => en (* Default to English *)
  end.

(** *** The other name tables *)

(** Localized names for AMS humidity sensor. *)
Definition AMS_HUMIDITY_NAMES : list string :=
  [ "humidity"          (* English *)
  ; "luftfeuchtigkeit"  (* German *)
  ; "vochtigheid"       (* Dutch *)
  ; "humedad"           (* Spanish *)
  ; "umidita"           (* Italian *)
  ].

(** Localized names for AMS tray sensor. *)
Definition TRAY_NAMES : list string :=
  [ "tray"     (* English (also used in Dutch) *)
  ; "slot"     (* German, Italian *)
  ; "bandeja"  (* Spanish *)
  ].

(** Localized names for external spool sensor. *)
Definition EXTERNAL_SPOOL_NAMES : list string :=
  [ "external_spool"
  ; "externalspool_external_spool"
  ; "externe_spule"
  ; "externespule_externe_spule"
  ; "externe_spoel"
  ; "externespoel_externe_spoel"
  ; "bobina_externa"
  ; "bobinaexterna_bobina_externa"
  ; "bobina_esterna"
  ; "bobinaesterna_bobina_esterna"
  ].

(** Localized friendly name suffixes to strip from printer names. *)
Definition FRIENDLY_NAME_SUFFIXES : list string :=
  [ "Print Status"
  ; "Druckstatus"
  ; "Printstatus"
  ; "Estado de la Impresión"
  ; "Stato di stampa"
  ].

Definition CURRENT_STAGE_NAMES : list string :=
  [ "current_stage"
  ; "aktueller_arbeitsschritt"
  ; "huidige_fase"
  ; "estado_actual"
  ; "fase_corrente"
  ].

Definition PRINT_WEIGHT_NAMES : list string :=
  [ "print_weight"
  ; "gewicht_des_drucks"
  ; "gewicht_van_print"
  ; "peso_de_la_impresion"
  ; "grammatura_stampa"
  ].

Definition PRINT_PROGRESS_NAMES : list string :=
  [ "print_progress"
  ; "druckfortschritt"
  ; "printvoortgang"
  ; "progreso_de_la_impresion"
  ; "progressi_di_stampa"
  ].

(** Localized entity names by language. *)
Record LocalizedEntities := {
  current_stage : string;
  print_weight : string;
  print_progress : string;
  external_spool : string;
}.

Definition LOCALIZED_ENTITIES (language : SupportedLanguage) : LocalizedEntities :=
  match language with
  | en => {| current_stage := "current_stage";
             print_weight := "print_weight";
             print_progress := "print_progress";
             external_spool := "external_spool" |}
  | de => {| current_stage := "aktueller_arbeitsschritt";
             print_weight := "gewicht_des_drucks";
             print_progress := "druckfortschritt";
             external_spool := "externe_spule" |}
  | nl => {| current_stage := "huidige_fase";
             print_weight := "gewicht_van_print";
             print_progress := "printvoortgang";
             external_spool := "externe_spoel" |}
  | es => {| current_stage := "estado_actual";
             print_weight := "peso_de_la_impresion";
             print_progress := "progreso_de_la_impresion";
             external_spool := "bobina_externa" |}
  | it => {| current_stage := "fase_corrente";
             print_weight := "grammatura_stampa";
             print_progress := "progressi_di_stampa";
             external_spool := "bobina_esterna" |}
  end.

(** The [entityType] argument: one of the four keys. *)
Inductive EntityType := CurrentStage | PrintWeight | PrintProgress | ExternalSpool.

(** *** The pattern builders *)

(** The builders splice [prefix] (and [amsNumber]) into the source of the
    regular expression. A prefix of word characters (letters, digits, [_]:
    what an entity identifier is made of) stands for itself there, and the
    builders are modelled for such prefixes: the prefix is a literal. A
    pattern is given as what [entityId.match(pattern)] returns: the capture
    groups, or [None] for null. *)
Definition is_word (c : ascii) : bool :=
  let n := nat_of_ascii c in
  is_digit c || ((65 <=? n)%nat && (n <=? 90)%nat)
  || ((97 <=? n)%nat && (n <=? 122)%nat) || bool_decide (c = "_"%char).

Definition literal_source (s : string) : bool := forallb is_word (chars s).

(** [(\d+)] before a [_]: the longest run of digits (what follows is not a
    digit, so no shorter run lets the rest match). *)
Fixpoint span_digits (t : list ascii) : list ascii * list ascii :=
  match t with
  | c :: t' =>
      if is_digit c
      then let '(ds, rest) := span_digits t' in (c :: ds, rest)
      else ([], t)
  | [] => ([], [])
  end.

(** [(?:_(\d+))?$] against the whole remaining input: the capture, which is
    undefined ([None]) when the group takes no part in the match. *)
Definition opt_version_capture (t : list ascii) : option (option string) :=
  match t with
  | [] => Some None
  | _ :: ds => if version_suffix t then Some (Some (text ds)) else None
  end.

(** [(n1|n2|...)(?:_(\d+))?$]: the alternatives are tried in order; the
    first with which the rest of the pattern matches is the one captured. *)
Fixpoint first_name (names : list string) (t : list ascii)
  : option (string * option string) :=
  match names with
  | [] => None
  | name :: names' =>
      match after_literal (chars name) t ≫= opt_version_capture with
      | Some version => Some (name, version)
      | None => first_name names' t
      end
  end.

(** [^sensor\.${prefix}_ams_(\d+)_(?:${names})(?:_(\d+))?$]: groups 1, 2. *)
Definition buildAmsPattern (prefix entityId : string)
  : option (string * option string) :=
  rest ← after_literal (chars ("sensor." +:+ prefix +:+ "_ams_")) (chars entityId);
  let '(number, rest) := span_digits rest in
  match number, rest with
  | _ :: _, c :: rest =>
      if bool_decide (c = "_"%char)
      then '(_, version) ← first_name AMS_HUMIDITY_NAMES rest;
           Some (text number, version)
      else None
  | _, _ => None
  end.

(** [^sensor\.${prefix}_ams_${amsNumber}_(?:${names})_${trayNum}(?:_(\d+))?$]:
    group 1. A tray number is a natural number; [${trayNum}] is its decimal
    numeral. *)
Definition buildTrayPattern (prefix amsNumber : string) (trayNum : N)
    (entityId : string) : option (option string) :=
  rest ← after_literal
           (chars ("sensor." +:+ prefix +:+ "_ams_" +:+ amsNumber +:+ "_"))
           (chars entityId);
  '(_, version) ← first_name
                    (map (λ name, name +:+ "_" +:+ pretty trayNum) TRAY_NAMES)
                    rest;
  Some version.

(** [^sensor\.${prefix}_(${names})(?:_(\d+))?$]: groups 1, 2. The four
    builders below differ in the table of names only. *)
Definition named_sensor_pattern (names : list string) (prefix entityId : string)
  : option (string * option string) :=
  rest ← after_literal (chars ("sensor." +:+ prefix +:+ "_")) (chars entityId);
  first_name names rest.

Definition buildExternalSpoolPattern : string → string → option (string * option string) :=
  named_sensor_pattern EXTERNAL_SPOOL_NAMES.

Definition buildCurrentStagePattern : string → string → option (string * option string) :=
  named_sensor_pattern CURRENT_STAGE_NAMES.

Definition buildPrintWeightPattern : string → string → option (string * option string) :=
  named_sensor_pattern PRINT_WEIGHT_NAMES.

Definition buildPrintProgressPattern : string → string → option (string * option string) :=
  named_sensor_pattern PRINT_PROGRESS_NAMES.

(** *** Friendly names *)

(** Matching with the [i] flag compares characters by their canonical
    (upper-case) form. On the bytes of UTF-8: an ASCII letter has two cases;
    so has a letter of U+00E0..U+00FE but U+00F7 (second byte A0..BE but B7
    after the lead byte C3), whose upper-case form has the second byte 32
    lower; every other character of the patterns here is matched by itself
    only. [prev] is the byte before. *)
Definition upper_form (prev c : ascii) : ascii :=
  let n := nat_of_ascii c in
  if (97 <=? n)%nat && (n <=? 122)%nat then ascii_of_nat (n - 32)
  else if bool_decide (prev = "195"%char) && (160 <=? n)%nat && (n <=? 190)%nat
          && negb (n =? 183)%nat
       then ascii_of_nat (n - 32)
  else c.

Fixpoint canonical (prev : ascii) (t : list ascii) : list ascii :=
  match t with
  | [] => []
  | c :: t' => upper_form prev c :: canonical c t'
  end.

(** A literal pattern under the [i] flag, followed by [$], against the whole
    remaining input. *)
Definition literal_i (pattern t : list ascii) : bool :=
  bool_decide (canonical " "%char t = canonical " "%char pattern).

(** The loop: every suffix is stripped in turn. *)
Definition strip_suffixes (suffixes : list string) (cleaned : list ascii) :=
  fold_left (λ cleaned suffix,
               replace_to_end (literal_i (chars (" " +:+ suffix))) cleaned)
            suffixes cleaned.

Definition cleanFriendlyName (friendlyName : option string) (fallback : string)
  : string :=
  match friendlyName with
  | None => fallback
  | Some friendlyName =>
      if bool_decide (friendlyName = "") then fallback
      else
        let cleaned :=
          strip_suffixes FRIENDLY_NAME_SUFFIXES (chars friendlyName) in
        match cleaned with
        | [] => fallback
        | _ => text cleaned
        end
  end.

(** *** Localized entity names *)

Definition getLocalizedEntities (language : SupportedLanguage) : LocalizedEntities :=
  LOCALIZED_ENTITIES language.

(** [LOCALIZED_ENTITIES[language][entityType]]. *)
Definition entity_name (names : LocalizedEntities) (entityType : EntityType)
  : string :=
  match entityType with
  | CurrentStage => current_stage names
  | PrintWeight => print_weight names
  | PrintProgress => print_progress names
  | ExternalSpool => external_spool names
  end.

Definition getLocalizedEntityName (printerEntityId : string)
    (entityType : EntityType) : string :=
  let language := detectLanguageFromEntity printerEntityId in
  entity_name (LOCALIZED_ENTITIES language) entityType.

End EntityPatterns.

(* ================================================================== *)
(** ** The webhook handler ([api/webhook/route.ts]) *)
(* ================================================================== *)

Module Webhook.

(** *** Data *)

(** A spool as the inventory client returns it. JavaScript numbers are
    binary64 floats; [extra] is optional ([s.extra?.[...]]). *)
Record Filament := { name : string }.

Record Spool := {
  id : Z;
  filament : Filament;
  remaining_weight : float;
  extra : option (gmap string string);
}.

(** The fields of the request body the handler reads, typed as the
    endpoint documents its payloads (the [GET] handler); [None] is a field
    that is absent ([undefined] after destructuring). The handler checks no
    type: a field of another type (a [used_weight] that is a string, say)
    is outside this model, and the properties below speak of bodies with
    fields of the documented types only. *)
Record Body := {
  event : option string;
  used_weight : option float;
  active_tray_id : option string;
  tray_entity_id : option string;
  tag_uid : option string;
}.

(** Template literals and [JSON.stringify] results are kept as their parts,
    numbers unrendered. *)
Inductive Piece :=
  | Lit (s : string)
  | Num (x : float)
  | Id (n : Z).

Inductive Details :=
  | BodyJson (body : Body)                       (* JSON.stringify(body) *)
  | ObjectJson (fields : list (string * Piece))  (* JSON.stringify({...}) *)
  | ErrorText (s : string).

Record ActivityRecord := {
  type : string;
  message : list Piece;
  details : Details;
}.

Record SpoolUpdateEvent := {
  update_type : string;
  spoolId : Z;
  spoolName : string;
  deducted : float;
  newWeight : float;
  trayId : string;
  timestamp : Z;
}.

(** The JSON object of a response, by shape. *)
Inductive ResponseJson :=
  | Ignored (reason : string)
  | NoMatch (message : string)
  | UsageSuccess (spoolId : Z) (deducted newRemainingWeight : float)
  | AssignSuccess (spool : Spool) (matchedBy : string)
  | Failed (error : string).

Record Response := { json : ResponseJson; http_status : nat }.


(** The calls the handler makes on the inventory client: the read
    [client.getSpools()] and the two mutations [client.useWeight(id, weight)]
    and [client.assignSpoolToTray(id, trayId)]. *)
Inductive ClientCall :=
  | GetSpools
  | UseWeight (spoolId : Z) (weight : float)
  | AssignSpoolToTray (spoolId : Z) (trayId : option string).

(** *** Effects *)

(** What a rejected promise carries: an [Error] with its message, or any
    other value, as [String(error)] shows it. *)
Inductive Thrown :=
  | JsError (message : string)
  | JsValue (shown : string).

Inductive Result (A : Type) :=
  | Ok (a : A)
  | Throw (e : Thrown).
Arguments Ok {A} a.
Arguments Throw {A} e.

(** What the handler changes: the activity log, the calls made on the
    inventory client, and the events emitted on [spoolEvents]. *)
Record World := {
  activityLog : list ActivityRecord;
  calls : list ClientCall;
  emitted : list SpoolUpdateEvent;
}.

(** The inventory service behind a connection, as [SpoolmanClient] sees
    it: the snapshot a read returns, and whether a mutation returns or
    throws. *)
Record SpoolmanClient := {
  getSpools_result : Result (list Spool);
  useWeight_result : Z → float → Result unit;
  assignSpoolToTray_result : Z → option string → Result unit;
}.

(** The stored connection: its [url], and the service [new
    SpoolmanClient(url)] talks to. *)
Record SpoolmanConnection := {
  url : string;
  client : SpoolmanClient;
}.

(** What [request.json()] resolves to when the body parses: [null], or a
    value whose fields can be read (a JSON object; of a number, a string, a
    boolean or an array the fields the handler reads are all absent). *)
Inductive Parsed :=
  | JsonNull
  | JsonValue (body : Body).

(** What the handler is given: what [request.json()] answers (it throws
    when the body does not parse), the stored connection if there is one
    ([prisma.spoolmanConnection.findFirst()]), and the clock. The storage
    layer itself is taken to answer: its writes are the activity log. *)
Record Env := {
  request : Result Parsed;
  spoolmanConnection : option SpoolmanConnection;
  Date_now : Z;
}.

(** [const { event } = body] throws a [TypeError] when [body] is [null]
    (the message is the engine's). *)
Definition destructure_null : Thrown :=
  JsError "Cannot destructure property 'event' of 'body' as it is null.".

(** Reading the body: [request.json()], then the destructuring. *)
Definition request_json (env : Env) : Result Body :=
  match request env with
  | Ok (JsonValue body) => Ok body
  | Ok JsonNull => Throw destructure_null
  | Throw e => Throw e
  end.

Definition M (A : Type) : Type := World → Result A * World.

#[export] Instance M_ret : MRet M := λ A a w, (Ok a, w).

#[export] Instance M_bind : MBind M := λ A B f m w,
  match m w with
  | (Ok a, w') => f a w'
  | (Throw e, w') => (Throw e, w')
  end.

Definition try_catch {A} (body : M A) (handler : Thrown → M A) : M A :=
  λ w, match body w with
       | (Ok a, w') => (Ok a, w')
       | (Throw e, w') => handler e w'
       end.

Definition await {A} (r : Result A) : M A := λ w, (r, w).

Definition activityLog_create (data : ActivityRecord) : M unit := λ w,
  (Ok (), {| activityLog := activityLog w ++ [data];
             calls := calls w; emitted := emitted w |}).

Definition call (c : ClientCall) : M unit := λ w,
  (Ok (), {| activityLog := activityLog w;
             calls := calls w ++ [c]; emitted := emitted w |}).

Definition emit (e : SpoolUpdateEvent) : M unit := λ w,
  (Ok (), {| activityLog := activityLog w;
             calls := calls w; emitted := emitted w ++ [e] |}).

Definition getSpools (client : SpoolmanClient) : M (list Spool) :=
  call GetSpools;; await (getSpools_result client).

Definition useWeight (client : SpoolmanClient) (spoolId : Z) (weight : float)
  : M unit :=
  call (UseWeight spoolId weight);;
  await (useWeight_result client spoolId weight).

Definition assignSpoolToTray (client : SpoolmanClient) (spoolId : Z)
    (trayId : option string) : M unit :=
  call (AssignSpoolToTray spoolId trayId);;
  await (assignSpoolToTray_result client spoolId trayId).

(** *** JavaScript primitives *)

(** [!x] is false for a number that is neither zero nor NaN, and for a
    string that is not empty. *)
Definition truthy_number (x : float) : bool :=
  negb (PrimFloat.is_zero x || PrimFloat.is_nan x).

Definition truthy_string (s : string) : bool := negb (bool_decide (s = "")).

(** [`${x}`] for a string that may be undefined. *)
Definition show (x : option string) : string := default "undefined" x.

Definition hex_digit (n : nat) : ascii :=
  nth n (chars "0123456789abcdef") "0"%char.

(** [JSON.stringify] of a string: quoted, with the quote, the backslash and
    the control characters escaped. *)
Definition quote_char (c : ascii) : list ascii :=
  let n := nat_of_ascii c in
  if (n =? 8)%nat then chars "\b"
  else if (n =? 9)%nat then chars "\t"
  else if (n =? 10)%nat then chars "\n"
  else if (n =? 12)%nat then chars "\f"
  else if (n =? 13)%nat then chars "\r"
  else if (n =? 34)%nat then ["\"%char; "034"%char]
  else if (n =? 92)%nat then chars "\\"
  else if (n <? 32)%nat
       then chars "\u00" ++ [hex_digit (n / 16); hex_digit (n mod 16)]
  else [c].

Definition JSON_stringify (s : string) : string :=
  text ("034"%char :: flat_map quote_char (chars s) ++ ["034"%char]).

Arguments JSON_stringify : simpl never.

Definition extra_field (s : Spool) (key : string) : option string :=
  extra s ≫= (λ fields, fields !! key).

Definition json_response (j : ResponseJson) : Response :=
  {| json := j; http_status := 200 |}.

(** *** The handler *)

Definition spool_usage (env : Env) (client : SpoolmanClient) (body : Body)
  : M Response :=
  match used_weight body with
  | None => mret (json_response (Ignored "no weight to deduct"))
  | Some used_weight =>
  if negb (truthy_number used_weight) || (used_weight <=? 0)%float
  then mret (json_response (Ignored "no weight to deduct"))
  else
  match active_tray_id body with
  | None => mret (json_response (Ignored "no active_tray_id provided"))
  | Some active_tray_id =>
  if negb (truthy_string active_tray_id)
  then mret (json_response (Ignored "no active_tray_id provided"))
  else
    spools ← getSpools client;
    (* Match by active_tray_id *)
    let jsonTrayId := JSON_stringify active_tray_id in
    match find (λ s, bool_decide (extra_field s "active_tray" = Some jsonTrayId))
               spools with
    | None =>
        mret (json_response (NoMatch
          ("No spool assigned to tray " +:+ active_tray_id +:+
           ". Assign a spool in SpoolmanSync first.")))
    | Some matchedSpool =>
        (* Deduct the used weight from the spool *)
        useWeight client (id matchedSpool) used_weight;;
        (* Emit real-time update event for dashboard *)
        emit {| update_type := "usage";
                spoolId := id matchedSpool;
                spoolName := name (filament matchedSpool);
                deducted := used_weight;
                newWeight := (remaining_weight matchedSpool - used_weight)%float;
                trayId := active_tray_id;
                timestamp := Date_now env |};;
        activityLog_create
          {| type := "spool_usage";
             message := [Lit "Deducted "; Num used_weight;
                         Lit "g from spool #"; Id (id matchedSpool);
                         Lit " ("; Lit (name (filament matchedSpool)); Lit ")"];
             details := ObjectJson [("spoolId", Id (id matchedSpool));
                                    ("usedWeight", Num used_weight);
                                    ("trayId", Lit active_tray_id)] |};;
        mret (json_response
                (UsageSuccess (id matchedSpool) used_weight
                   (remaining_weight matchedSpool - used_weight)%float))
    end
  end
  end.

Definition no_auto_match : Response :=
  json_response (NoMatch
    "No spool assigned to this tray. Please assign a spool manually in SpoolmanSync.").

Definition tray_change (client : SpoolmanClient) (body : Body) : M Response :=
  let tray_entity_id := tray_entity_id body in
  spools ← getSpools client;
  (* Auto-match by tag_uid only *)
  match tag_uid body with
  | None => mret no_auto_match
  | Some tag_uid =>
  if truthy_string tag_uid && negb (bool_decide (tag_uid = "unknown"))
     && negb (bool_decide (tag_uid = ""))
  then
    let jsonTagUid := JSON_stringify tag_uid in
    match find (λ s, bool_decide (extra_field s "tag_uid" = Some jsonTagUid))
               spools with
    | Some matchedSpool =>
        assignSpoolToTray client (id matchedSpool) tray_entity_id;;
        activityLog_create
          {| type := "spool_change";
             message := [Lit "Auto-assigned spool #"; Id (id matchedSpool);
                         Lit " to "; Lit (show tray_entity_id);
                         Lit " (matched by tag UID)"];
             details := ObjectJson
               ([("spoolId", Id (id matchedSpool))] ++
                match tray_entity_id with
                | Some t => [("trayId", Lit t)]
                | None => []   (* an undefined property is left out *)
                end ++
                [("matchedBy", Lit "tag_uid")]) |};;
        mret (json_response (AssignSuccess matchedSpool "tag_uid"))
    | None => mret no_auto_match
    end
  else mret no_auto_match
  end.

(** The body of the [try] block. *)
Definition POST_try (env : Env) : M Response :=
  body ← await (request_json env);
  (* Log the webhook event *)
  activityLog_create
    {| type := "webhook";
       message := [Lit "Received "; Lit (show (event body)); Lit " event"];
       details := BodyJson body |};;
  match spoolmanConnection env with
  | None => mret (json_response (Ignored "spoolman not configured"))
  | Some spoolmanConnection =>
      let client := client spoolmanConnection in
      if bool_decide (event body = Some "spool_usage")
      then spool_usage env client body
      else if bool_decide (event body = Some "tray_change")
      then tray_change client body
      else mret (json_response (Ignored "unknown event type"))
  end.

Definition error_details (error : Thrown) : string :=
  match error with
  | JsError message => message
  | JsValue shown => shown
  end.

(** The [catch] block. *)
Definition POST_catch (error : Thrown) : M Response :=
  activityLog_create
    {| type := "error";
       message := [Lit "Webhook processing failed"];
       details := ErrorText (error_details error) |};;
  mret {| json := Failed "Webhook processing failed"; http_status := 500 |}.

Definition POST (env : Env) : M Response :=
  try_catch (POST_try env) POST_catch.

(** *** The documentation endpoint *)

(** The values of the fields of a JSON object: those of the documented
    payloads are strings and numbers; of an array or an object that is a
    field the contents are left out. An object is kept as the list of its
    entries, each key once. *)
Inductive Json :=
  | JNull
  | JBool (b : bool)
  | JNumber (x : float)
  | JString (s : string)
  | JCompound.

Record EventDoc := {
  description : string;
  payload : list (string * Json);
}.

(** The object [GET] answers with (HTTP status 200); objects are kept as
    the list of their entries. *)
Record Documentation := {
  doc_status : string;
  doc_message : string;
  events : list (string * EventDoc);
}.

Definition GET : Documentation :=
  {| doc_status := "ok";
     doc_message := "SpoolmanSync webhook endpoint";
     events :=
       [ ("spool_usage",
          {| description := "Deduct filament weight from spool after print";
             payload :=
               [ ("event", JString "spool_usage")
               ; ("name", JString "Filament Name")
               ; ("material", JString "PLA")
               ; ("tag_uid", JString "...")
               ; ("used_weight", JNumber 0x1.f47ae147ae148p+1) (* 3.91 *)
               ; ("color", JString "#FFFFFF")
               ; ("active_tray_id", JString "sensor.x1c_..._tray_1")
               ] |})
       ; ("tray_change",
          {| description := "Auto-assign spool by tag_uid (Bambu spools only)";
             payload :=
               [ ("event", JString "tray_change")
               ; ("tray_entity_id", JString "sensor.x1c_..._tray_1")
               ; ("tag_uid", JString "...")
               ; ("color", JString "#FFFFFF")
               ; ("material", JString "PLA")
               ] |})
       ] |}.

End Webhook.

(* ================================================================== *)
(** ** Vocabulary of the properties *)
(* ================================================================== *)

Import EntityPatterns.
Import Webhook.

(** *** Entity identifiers *)

(** The literal [_${suffix}] of the patterns. *)
Definition pattern_of (suffix : string) : list ascii := chars ("_" +:+ suffix).

Definition ends_nondigit (t : list ascii) : Prop :=
  ∃ t0 c, t = t0 ++ [c] ∧ is_digit c = false.

Definition two : list ascii := chars "_2".

(** An identifier that ends in [_<suffix>], optionally followed by a numeric
    disambiguator [_2], [_3], ... *)
Definition has_status_suffix (entityId suffix : string) : Prop :=
  (∃ p, entityId = p +:+ "_" +:+ suffix) ∨
  (∃ p n, n ≠ "" ∧ forallb is_digit (chars n) = true ∧
          entityId = p +:+ "_" +:+ suffix +:+ "_" +:+ n).

(** A numeral: a non-empty string of digits. *)
Definition numeral (n : string) : Prop :=
  n ≠ "" ∧ forallb is_digit (chars n) = true.

(** The optional numeric disambiguator at the end of an identifier: nothing,
    or [_] and a numeral. As a capture group it is undefined ([None]) or the
    numeral. *)
Definition disambiguator (version : option string) : string :=
  match version with
  | Some n => "_" +:+ n
  | None => ""
  end.

Definition numbered (version : option string) : Prop :=
  match version with
  | Some n => numeral n
  | None => True
  end.

(** No line terminator (LF, CR, U+2028, U+2029) occurs in [t]. *)
Fixpoint single_line (t : list ascii) : bool :=
  match t with
  | [] => true
  | _ :: t' => negb (line_terminator_at t) && single_line t'
  end.

(** [entityId] without a leading [sensor.]. *)
Definition without_sensor (entityId : string) : string :=
  match after_literal (chars "sensor.") (chars entityId) with
  | Some rest => text rest
  | None => entityId
  end.

(** [/ ${suffix}$/i] matches [name]: the name ends in a space and the
    suffix, whatever the case of the letters. *)
Definition ends_like (name suffix : string) : bool :=
  search (literal_i (chars (" " +:+ suffix))) (chars name).

(** Two strings that differ in the case of letters only. *)
Definition same_letters (s p : string) : Prop :=
  canonical " "%char (chars s) = canonical " "%char (chars p).

(** The table of names of each entity type. *)
Definition names_of (entityType : EntityType) : list string :=
  match entityType with
  | CurrentStage => CURRENT_STAGE_NAMES
  | PrintWeight => PRINT_WEIGHT_NAMES
  | PrintProgress => PRINT_PROGRESS_NAMES
  | ExternalSpool => EXTERNAL_SPOOL_NAMES
  end.

(** The last character is no digit, as a test. *)
Definition ends_nondigitb (t : list ascii) : bool :=
  match rev t with
  | c :: _ => negb (is_digit c)
  | [] => false
  end.

(** The builder of the pattern of each entity type. *)
Definition pattern_for (entityType : EntityType)
  : string → string → option (string * option string) :=
  match entityType with
  | CurrentStage => buildCurrentStagePattern
  | PrintWeight => buildPrintWeightPattern
  | PrintProgress => buildPrintProgressPattern
  | ExternalSpool => buildExternalSpoolPattern
  end.

(** A tray number whose decimal numeral [`${trayNum}`] is: a natural number
    that a JavaScript number holds exactly. *)
Definition safe_integer (n : N) : Prop := (n ≤ 9007199254740991)%N.

(** *** Deliveries *)

(** The spools of a snapshot that carry [value], JSON-encoded, under [key]
    of their [extra] fields, in snapshot order. *)
Definition carries (key value : string) (s : Spool) : Prop :=
  extra_field s key = Some (JSON_stringify value).

#[export] Instance carries_dec key value s : Decision (carries key value s).
Proof. unfold carries. apply _. Defined.

(** The world with more records in the activity log. *)
Definition logged (w : World) (rs : list ActivityRecord) : World :=
  {| activityLog := activityLog w ++ rs; calls := calls w; emitted := emitted w |}.

Definition webhook_record (body : Body) : ActivityRecord :=
  {| type := "webhook";
     message := [Lit "Received "; Lit (show (event body)); Lit " event"];
     details := BodyJson body |}.



(** The event and the record of a deduction, and the record of an
    automatic assignment. *)
Definition usage_event (env : Env) (s : Spool) (x : float) (tray : string)
  : SpoolUpdateEvent :=
  {| update_type := "usage";
     spoolId := id s;
     spoolName := name (filament s);
     deducted := x;
     newWeight := (remaining_weight s - x)%float;
     trayId := tray;
     timestamp := Date_now env |}.

Definition usage_record (s : Spool) (x : float) (tray : string) : ActivityRecord :=
  {| type := "spool_usage";
     message := [Lit "Deducted "; Num x; Lit "g from spool #"; Id (id s);
                 Lit " ("; Lit (name (filament s)); Lit ")"];
     details := ObjectJson [("spoolId", Id (id s)); ("usedWeight", Num x);
                            ("trayId", Lit tray)] |}.

Definition assign_record (s : Spool) (tray : option string) : ActivityRecord :=
  {| type := "spool_change";
     message := [Lit "Auto-assigned spool #"; Id (id s); Lit " to ";
                 Lit (show tray); Lit " (matched by tag UID)"];
     details := ObjectJson
       ([("spoolId", Id (id s))] ++
        match tray with
        | Some t => [("trayId", Lit t)]
        | None => []
        end ++
        [("matchedBy", Lit "tag_uid")]) |}.

(** A tag the handler matches on: provided, not empty and not [unknown]. *)
Definition usable_tag (tag : option string) : option string :=
  match tag with
  | Some t => if decide (t = "" ∨ t = "unknown") then None else Some t
  | None => None
  end.



(** What the guards of [spool_usage] ask for: a [used_weight] that is a
    positive number, and an [active_tray_id] that is given and not empty. *)
Definition positive_weight (body : Body) : Prop :=
  ∃ x, used_weight body = Some x ∧ (0 <? x)%float = true.

Definition tray_given (body : Body) : Prop :=
  ∃ tray, active_tray_id body = Some tray ∧ tray ≠ "".




(** The mutation call [c] acts on the spool [s]. *)
Definition acts_on (c : ClientCall) (s : Spool) : Prop :=
  match c with
  | GetSpools => False
  | UseWeight spoolId _ | AssignSpoolToTray spoolId _ => spoolId = id s
  end.

(** The calls a delivery makes on the inventory client, by the response:
    none, the read alone, or the read and then one mutation. *)
Definition calls_of_outcome (resp : Response) (made : list ClientCall) : Prop :=
  match json resp with
  | Ignored _ => made = []
  | NoMatch _ => made = [GetSpools]
  | UsageSuccess spoolId x _ => made = [GetSpools; UseWeight spoolId x]
  | AssignSuccess s _ =>
      ∃ tray, made = [GetSpools; AssignSpoolToTray (id s) tray]
  | Failed _ =>
      made = [] ∨ made = [GetSpools] ∨
      (∃ spoolId x, made = [GetSpools; UseWeight spoolId x]) ∨
      (∃ spoolId tray, made = [GetSpools; AssignSpoolToTray spoolId tray])
  end.

(** The events a delivery broadcasts, by the response: one [usage] event
    with the numbers of the response for a deduction, none otherwise. *)
Definition broadcast_of_outcome (env : Env) (resp : Response)
    (sent : list SpoolUpdateEvent) : Prop :=
  match json resp with
  | UsageSuccess spool x remaining =>
      ∃ ev, sent = [ev] ∧ update_type ev = "usage" ∧ spoolId ev = spool ∧
            deducted ev = x ∧ newWeight ev = remaining ∧
            timestamp ev = Date_now env
  | _ => sent = []
  end.

(** Reading one character back from its JSON encoding: the character and
    what follows it; [None] at the end of the input and at the closing
    quote. *)
Definition hex_value (c : ascii) : nat :=
  let n := nat_of_ascii c in
  if (n <=? 57)%nat then n - 48 else n - 87.

Definition unquote (t : list ascii) : option (ascii * list ascii) :=
  match t with
  | [] => None
  | c :: r =>
      if (nat_of_ascii c =? 34)%nat then None
      else if negb (nat_of_ascii c =? 92)%nat then Some (c, r)
      else match r with
           | e :: r' =>
               let n := nat_of_ascii e in
               if (n =? 98)%nat then Some ("008"%char, r')
               else if (n =? 116)%nat then Some ("009"%char, r')
               else if (n =? 110)%nat then Some ("010"%char, r')
               else if (n =? 102)%nat then Some ("012"%char, r')
               else if (n =? 114)%nat then Some ("013"%char, r')
               else if (n =? 117)%nat then
                 match r' with
                 | _ :: _ :: h :: l :: r'' =>
                     Some (ascii_of_nat (16 * hex_value h + hex_value l), r'')
                 | _ => None
                 end
               else Some (e, r')
           | [] => None
           end
  end.

(** The body a JSON object is read as when it is posted: the fields the
    handler destructures, each absent or of the documented type: a string,
    or for [used_weight] a number (never NaN, which JSON does not have).
    [None] for the whole when a field has another type: such a body is
    outside the model. *)
Definition string_field (key : string) (object : list (string * Json))
  : option (option string) :=
  match snd <$> find (λ entry, bool_decide (fst entry = key)) object with
  | None => Some None
  | Some (JString s) => Some (Some s)
  | Some _ => None
  end.

Definition number_field (key : string) (object : list (string * Json))
  : option (option float) :=
  match snd <$> find (λ entry, bool_decide (fst entry = key)) object with
  | None => Some None
  | Some (JNumber x) => if PrimFloat.is_nan x then None else Some (Some x)
  | Some _ => None
  end.

Definition body_of (object : list (string * Json)) : option Body :=
  event ← string_field "event" object;
  used_weight ← number_field "used_weight" object;
  active_tray_id ← string_field "active_tray_id" object;
  tray_entity_id ← string_field "tray_entity_id" object;
  tag_uid ← string_field "tag_uid" object;
  Some {| event := event; used_weight := used_weight;
          active_tray_id := active_tray_id;
          tray_entity_id := tray_entity_id; tag_uid := tag_uid |}.


(** *** Concrete deliveries *)

Definition spool_pla : Spool :=
  {| id := 1; filament := {| name := "PLA Basic" |};
     remaining_weight := 800;
     extra := Some {[ "active_tray" := JSON_stringify "sensor.x1c_ams_1_tray_1";
                      "tag_uid" := JSON_stringify "04A1B2C3" ]} |}.


Definition spool_abs : Spool :=
  {| id := 3; filament := {| name := "ABS" |};
     remaining_weight := 1000;
     extra := Some {[ "tag_uid" := JSON_stringify "0499FFEE" ]} |}.

Definition usage_body (weight : float) (tray : string) : Body :=
  {| event := Some "spool_usage"; used_weight := Some weight;
     active_tray_id := Some tray; tray_entity_id := None; tag_uid := None |}.



(** A service that answers every call, and one whose [useWeight] fails. *)
Definition answering (spools : list Spool) : SpoolmanConnection :=
  {| url := "http://spoolman.local:7912";
     client := {| getSpools_result := Ok spools;
                  useWeight_result := λ _ _, Ok ();
                  assignSpoolToTray_result := λ _ _, Ok () |} |}.


(** Deliveries: with a connection configured, and with none. *)
Definition serving (body : Body) (spools : list Spool) : Env :=
  {| request := Ok (JsonValue body);
     spoolmanConnection := Some (answering spools);
     Date_now := 1700000000000 |}.



(** The object of a [spool_usage] payload. *)
Definition usage_object (weight : float) (tray : string)
  : list (string * Json) :=
  [ ("event", JString "spool_usage")
  ; ("used_weight", JNumber weight)
  ; ("active_tray_id", JString tray) ].



Definition fresh : World := {| activityLog := []; calls := []; emitted := [] |}.



(** The same, with the calls made (or the events sent) given. *)
Ltac answer made :=
  unfold POST_catch, activityLog_create, mbind, mret, M_bind, M_ret;
  eexists _, _, made; split; [reflexivity|]; cbn; rewrite ?app_nil_r;
  split; [rewrite <- ?app_assoc; reflexivity|]; cbn; eauto 8.

(* ================================================================== *)
(** ** Properties of the entity patterns *)
(* ================================================================== *)

Section primitives.
Implicit Types (s p q : string) (t v lit ds k : list ascii) (c d : ascii).

Lemma chars_app s p : chars (s +:+ p) = chars s ++ chars p.
Proof.
  induction s as [|c s IH]; [done|].
  change (chars (String c s +:+ p)) with (c :: chars (s +:+ p)).
  by rewrite IH.
Qed.

Lemma chars_inj s p : chars s = chars p → s = p.
Proof.
  intros H. rewrite <- (string_of_list_ascii_of_string s),
    <- (string_of_list_ascii_of_string p). by rewrite H.
Qed.

Lemma startsWith_spec s p : startsWith s p = true ↔ ∃ q, s = p +:+ q.
Proof.
  unfold startsWith. rewrite bool_decide_eq_true. split.
  - intros [k Hk]. exists (text k). apply chars_inj.
    by rewrite chars_app, list_ascii_of_string_of_list_ascii.
  - intros [q ->]. exists (chars q). apply chars_app.
Qed.

Lemma endsWith_spec s p : endsWith s p = true ↔ ∃ q, s = q +:+ p.
Proof.
  unfold endsWith. rewrite bool_decide_eq_true. split.
  - intros [k Hk]. exists (text k). apply chars_inj.
    by rewrite chars_app, list_ascii_of_string_of_list_ascii.
  - intros [q ->]. exists (chars q). apply chars_app.
Qed.

Lemma after_literal_spec lit t v : after_literal lit t = Some v ↔ t = lit ++ v.
Proof.
  unfold after_literal. case_bool_decide as H.
  - destruct H as [k ->]. rewrite drop_app_length. split.
    + by intros [= ->].
    + by intros ->%app_inv_head.
  - split; [done|]. intros ->. destruct H. by exists v.
Qed.

Lemma after_literal_app lit v : after_literal lit (lit ++ v) = Some v.
Proof. by apply after_literal_spec. Qed.

Lemma version_suffix_spec t :
  version_suffix t = true ↔
  ∃ ds, ds ≠ [] ∧ forallb is_digit ds = true ∧ t = "_"%char :: ds.
Proof.
  split.
  - destruct t as [|c [|d ds]]; [done..|]. unfold version_suffix.
    intros [Hc Hd]%andb_true_iff. apply bool_decide_eq_true in Hc as ->.
    by exists (d :: ds).
  - intros ([|d ds] & Hne & Hds & ->); [done|]. unfold version_suffix.
    by rewrite Hds, bool_decide_eq_true_2.
Qed.

Lemma opt_version_suffix_spec t :
  opt_version_suffix t = true ↔ t = [] ∨ version_suffix t = true.
Proof. destruct t; cbn [opt_version_suffix]; intuition congruence. Qed.

Lemma search_spec (m : list ascii → bool) t :
  search m t = true ↔ ∃ k v, t = k ++ v ∧ m v = true.
Proof.
  induction t as [|c t IH]; cbn [search]; rewrite orb_true_iff.
  - split.
    + intros [H|?]; [|done]. by exists [], [].
    + intros (k & v & H & Hm). symmetry in H.
      apply app_eq_nil in H as [-> ->]. by left.
  - rewrite IH. split.
    + intros [H|(k & v & -> & Hm)]; [by exists [], (c :: t)|].
      by exists (c :: k), v.
    + intros ([|c' k] & v & H & Hm); simplify_eq/=; [by left|].
      right. by exists k, v.
Qed.

Lemma snoc_shift k c ds d : k ++ c :: ds ++ [d] = (k ++ c :: ds) ++ [d].
Proof. by rewrite <- app_assoc. Qed.

(** A run of digits that follows a non-digit is determined by the whole
    string: what the greedy [\d+$] consumes. *)
Lemma digits_run_unique k k' c c' ds ds' :
  forallb is_digit ds = true → forallb is_digit ds' = true →
  is_digit c = false → is_digit c' = false →
  k ++ c :: ds = k' ++ c' :: ds' → k = k' ∧ c = c' ∧ ds = ds'.
Proof.
  revert ds'. induction ds as [|d ds IH] using rev_ind;
    intros ds' Hds Hds' Hc Hc'; destruct ds' as [|d' ds' _] using rev_ind.
  - intros [-> ->]%app_inj_tail. done.
  - rewrite forallb_app in Hds'. cbn in Hds'. rewrite snoc_shift.
    intros [_ ->]%app_inj_tail. rewrite Hc in Hds'.
    by rewrite andb_false_r in Hds'.
  - rewrite forallb_app in Hds. cbn in Hds. rewrite snoc_shift.
    intros [_ <-]%app_inj_tail. rewrite Hc' in Hds.
    by rewrite andb_false_r in Hds.
  - rewrite forallb_app in Hds, Hds'.
    apply andb_true_iff in Hds as [Hds _], Hds' as [Hds' _].
    rewrite !snoc_shift. intros [H ->]%app_inj_tail.
    destruct (IH ds' Hds Hds' Hc Hc' H) as (-> & -> & ->). done.
Qed.
End primitives.

Section suffix_table.
Implicit Types (s p q suffix : string) (t v ds k r : list ascii) (c d : ascii).

Lemma ends_nondigit_app k t : ends_nondigit t → ends_nondigit (k ++ t).
Proof. intros (t0 & c & -> & Hc). exists (k ++ t0), c. by rewrite app_assoc. Qed.

Lemma ends_nondigit_tail c t : t ≠ [] → ends_nondigit (c :: t) → ends_nondigit t.
Proof.
  intros Hne (t0 & d & H & Hd). destruct t0 as [|c' t0]; simplify_eq/=.
  by exists t0, d.
Qed.

Lemma ends_nondigit_digits k ds :
  ds ≠ [] → forallb is_digit ds = true → ¬ ends_nondigit (k ++ ds).
Proof.
  intros Hne Hds (t0 & c & H & Hc).
  destruct ds as [|d ds _] using rev_ind; [done|].
  rewrite app_assoc in H. apply app_inj_tail in H as [_ ->].
  rewrite forallb_app in Hds. cbn in Hds.
  by rewrite Hc, andb_false_r in Hds.
Qed.

Lemma pattern_ends_nondigit suffix :
  suffix ∈ PRINT_STATUS_SUFFIXES → ends_nondigit (pattern_of suffix).
Proof.
  unfold PRINT_STATUS_SUFFIXES. rewrite !elem_of_cons, elem_of_nil.
  intros [->|[->|[->|[->|[->|[]]]]]].
  - by exists (chars "_print_statu"), "s"%char.
  - by exists (chars "_druckstatu"), "s"%char.
  - by exists (chars "_printstatu"), "s"%char.
  - by exists (chars "_estado_de_la_impresio"), "n"%char.
  - by exists (chars "_stato_di_stamp"), "a"%char.
Qed.

(** No fragment is the end of another one: a string ends in at most one
    [_${suffix}]. *)
Lemma patterns_exclusive suffix suffix' k k' :
  suffix ∈ PRINT_STATUS_SUFFIXES → suffix' ∈ PRINT_STATUS_SUFFIXES →
  k ++ pattern_of suffix = k' ++ pattern_of suffix' → suffix = suffix'.
Proof.
  intros Hs Hs' H.
  assert (pattern_of suffix `suffix_of` pattern_of suffix' ∨
          pattern_of suffix' `suffix_of` pattern_of suffix) as Hcmp.
  { apply (suffix_weak_total _ _ (k ++ pattern_of suffix)).
    - by exists k.
    - exists k'. done. }
  revert Hs Hs' Hcmp. clear H. unfold PRINT_STATUS_SUFFIXES.
  rewrite !elem_of_cons, !elem_of_nil.
  intros [->|[->|[->|[->|[->|[]]]]]] [->|[->|[->|[->|[->|[]]]]]];
    try reflexivity;
    intros [H|H]; apply (bool_decide_eq_true_2 _) in H; vm_compute in H;
    discriminate H.
Qed.

Lemma numbered_at_spec suffix t :
  numbered_at suffix t = true ↔
  ∃ ds, ds ≠ [] ∧ forallb is_digit ds = true ∧
        t = pattern_of suffix ++ "_"%char :: ds.
Proof.
  unfold numbered_at. fold (pattern_of suffix).
  destruct (after_literal _ t) as [v|] eqn:E.
  - apply after_literal_spec in E as ->. rewrite version_suffix_spec.
    split; intros (ds & ? & ? & H); exists ds; simplify_list_eq; done.
  - split; [done|]. intros (ds & _ & _ & ->).
    by rewrite after_literal_app in E.
Qed.

Lemma opt_numbered_at_spec suffix t :
  opt_numbered_at suffix t = true ↔
  t = pattern_of suffix ∨ numbered_at suffix t = true.
Proof.
  unfold opt_numbered_at, numbered_at. fold (pattern_of suffix).
  destruct (after_literal _ t) as [v|] eqn:E.
  - apply after_literal_spec in E as ->. rewrite opt_version_suffix_spec.
    split; (intros [H|H]; [left|by right]).
    + by rewrite H, app_nil_r.
    + rewrite <- (app_nil_r (pattern_of suffix)) in H at 2.
      by apply app_inv_head in H.
  - split; [done|]. intros [->|?]; [|done].
    pose proof (after_literal_app (pattern_of suffix) []) as H.
    rewrite app_nil_r in H. congruence.
Qed.

(** Appending [_2] to an input that does not end in a digit: the pattern
    [_${suffix}(?:_\d+)?$] matches the one exactly when it matches the
    other. *)
Lemma opt_numbered_at_two suffix t :
  suffix ∈ PRINT_STATUS_SUFFIXES → ends_nondigit t →
  opt_numbered_at suffix (t ++ two) = opt_numbered_at suffix t.
Proof.
  intros Hs Ht. apply eq_iff_eq_true.
  rewrite !opt_numbered_at_spec, !numbered_at_spec. split.
  - intros [H|(ds & Hne & Hds & H)].
    + destruct (ends_nondigit_digits (t ++ ["_"%char]) ["2"%char]); [done..|].
      rewrite <- app_assoc. change (ends_nondigit (t ++ two)).
      rewrite H. by apply pattern_ends_nondigit.
    + left. by apply (digits_run_unique _ _ _ _ ["2"%char] ds) in H as (-> & _).
  - intros [->|(ds & Hne & Hds & ->)].
    + right. by exists ["2"%char].
    + by destruct (ends_nondigit_digits (pattern_of suffix ++ ["_"%char]) ds);
        [..|rewrite <- app_assoc].
Qed.

Lemma opt_numbered_at_short suffix t :
  suffix ∈ PRINT_STATUS_SUFFIXES → t `suffix_of` two →
  opt_numbered_at suffix t = false.
Proof.
  intros Hs Ht. assert (t = two ∨ t = ["2"%char] ∨ t = []) as Hcases.
  { destruct Ht as [[|a [|b [|? k]]] E]; unfold two in E; simplify_eq/=; auto. }
  revert Hs. unfold PRINT_STATUS_SUFFIXES. rewrite !elem_of_cons, elem_of_nil.
  by intros [->|[->|[->|[->|[->|[]]]]]]; destruct Hcases as [->|[->| ->]].
Qed.

Lemma status_tail_two t :
  ends_nondigit t → status_tail (t ++ two) = status_tail t.
Proof.
  intros Ht. unfold status_tail, PRINT_STATUS_SUFFIXES. cbn [existsb].
  rewrite !opt_numbered_at_two; try done;
    unfold PRINT_STATUS_SUFFIXES; repeat constructor.
Qed.

Lemma line_terminator_at_two t :
  t ≠ [] → line_terminator_at (t ++ two) = line_terminator_at t.
Proof.
  intros Hne. destruct t as [|c [|b [|d t]]]; [done|..]; cbn; [..|done];
    repeat case_bool_decide; by simplify_eq/=.
Qed.

(** The capture group is the same with and without a trailing [_2]. *)
Lemma lazy_capture_two r :
  ends_nondigit r → lazy_capture (r ++ two) = lazy_capture r.
Proof.
  induction r as [|c r IH]; intros Hr.
  { by destruct Hr as ([|??] & ? & ? & _). }
  change ((c :: r) ++ two) with (c :: (r ++ two)). cbn [lazy_capture].
  change (c :: (r ++ two)) with ((c :: r) ++ two).
  rewrite line_terminator_at_two by done.
  destruct (decide (r = [])) as [->|Hne].
  - by destruct (line_terminator_at [c]).
  - apply ends_nondigit_tail in Hr; [|done].
    by rewrite status_tail_two, IH.
Qed.

Lemma replace_to_end_no_match (m : list ascii → bool) r :
  search m r = false → replace_to_end m r = r.
Proof.
  induction r as [|c r IH]; cbn [search replace_to_end];
    intros [Hm Hs]%orb_false_iff; rewrite Hm; [done|]. by rewrite IH.
Qed.

Lemma replace_to_end_two suffix r :
  suffix ∈ PRINT_STATUS_SUFFIXES → ends_nondigit r →
  replace_to_end (opt_numbered_at suffix) (r ++ two) =
    if search (opt_numbered_at suffix) r
    then replace_to_end (opt_numbered_at suffix) r
    else r ++ two.
Proof.
  intros Hs. induction r as [|c r IH]; intros Hr.
  { by destruct Hr as ([|??] & ? & ? & _). }
  change ((c :: r) ++ two) with (c :: (r ++ two)).
  cbn [search replace_to_end].
  change (c :: (r ++ two)) with ((c :: r) ++ two).
  rewrite opt_numbered_at_two by done.
  destruct (opt_numbered_at suffix (c :: r)); [done|]. cbn [orb].
  destruct (decide (r = [])) as [->|Hne].
  - cbn [search app]. rewrite (opt_numbered_at_short suffix []); [|done|by exists two].
    cbn [orb]. f_equal. unfold two. cbn [chars replace_to_end].
    rewrite (opt_numbered_at_short suffix ["_"%char; "2"%char]);
      [|done|by exists []].
    by rewrite (opt_numbered_at_short suffix ["2"%char]);
      [|done|by exists ["_"%char]].
  - apply ends_nondigit_tail in Hr; [|done]. rewrite IH by done.
    by destruct (search _ r).
Qed.

Lemma strip_known_two suffixes suffix k :
  suffixes ⊆ PRINT_STATUS_SUFFIXES → suffix ∈ suffixes →
  let r := k ++ pattern_of suffix in
  strip_known suffixes (r ++ two) = strip_known suffixes r.
Proof.
  intros Hsub Hin r. assert (ends_nondigit r) as Hr.
  { by apply ends_nondigit_app, pattern_ends_nondigit, Hsub. }
  assert (search (opt_numbered_at suffix) r = true) as Hfound.
  { apply search_spec. exists k, (pattern_of suffix). split; [done|].
    apply opt_numbered_at_spec. by left. }
  clearbody r. revert Hsub Hin.
  induction suffixes as [|s suffixes IH]; intros Hsub Hin.
  { by apply elem_of_nil in Hin. }
  cbn [strip_known fold_left].
  rewrite replace_to_end_two; [|apply Hsub; left|done].
  destruct (search (opt_numbered_at s) r) eqn:E; [done|].
  rewrite replace_to_end_no_match by done. apply IH.
  - intros x Hx. apply Hsub. by right.
  - apply elem_of_cons in Hin as [->|]; [congruence|done].
Qed.
End suffix_table.

Section detection.
Implicit Types (entityId s p q suffix : string) (t v ds k r : list ascii).

Lemma matches_numbered_spec entityId suffix :
  matches_numbered entityId suffix = true ↔
  ∃ p n, n ≠ "" ∧ forallb is_digit (chars n) = true ∧
         entityId = p +:+ "_" +:+ suffix +:+ "_" +:+ n.
Proof.
  unfold matches_numbered. rewrite search_spec. split.
  - intros (k & v & Hk & (ds & Hne & Hds & ->)%numbered_at_spec).
    exists (text k), (text ds). split; [by destruct ds|].
    rewrite list_ascii_of_string_of_list_ascii. split; [done|].
    apply chars_inj. rewrite Hk, !chars_app.
    rewrite !list_ascii_of_string_of_list_ascii. unfold pattern_of.
    by rewrite chars_app, <- !app_assoc.
  - intros (p & n & Hne & Hn & ->). exists (chars p), (chars ("_" +:+ suffix +:+ "_" +:+ n)).
    split; [by rewrite chars_app|]. apply numbered_at_spec.
    exists (chars n). split; [by destruct n|]. split; [done|].
    unfold pattern_of. by rewrite !chars_app, <- !app_assoc.
Qed.

Lemma suffix_test_spec entityId suffix :
  endsWith entityId ("_" +:+ suffix) || matches_numbered entityId suffix = true
  ↔ has_status_suffix entityId suffix.
Proof.
  unfold has_status_suffix.
  by rewrite orb_true_iff, endsWith_spec, matches_numbered_spec.
Qed.

(** An identifier carries the suffix of at most one language. *)
Lemma has_status_suffix_unique entityId suffix suffix' :
  suffix ∈ PRINT_STATUS_SUFFIXES → suffix' ∈ PRINT_STATUS_SUFFIXES →
  has_status_suffix entityId suffix → has_status_suffix entityId suffix' →
  suffix = suffix'.
Proof.
  intros Hs Hs' H H'.
  assert (∀ p s, chars (p +:+ "_" +:+ s) = chars p ++ pattern_of s) as Eplain.
  { intros. by rewrite chars_app. }
  assert (∀ p s n, chars (p +:+ "_" +:+ s +:+ "_" +:+ n)
                   = (chars p ++ pattern_of s) ++ "_"%char :: chars n) as Enum.
  { intros. unfold pattern_of. by rewrite !chars_app, <- !app_assoc. }
  destruct H as [[p ->]|(p & n & Hne & Hn & ->)],
           H' as [[p' E]|(p' & n' & Hne' & Hn' & E)];
    apply (f_equal chars) in E; rewrite ?Enum, ?Eplain in E.
  - by apply patterns_exclusive in E.
  - destruct (pattern_ends_nondigit suffix Hs) as (t0 & c & Ep & Hc).
    rewrite Ep, app_assoc in E.
    apply (digits_run_unique _ _ _ _ []) in E as (_ & _ & E);
      [by destruct n'|done..].
  - destruct (pattern_ends_nondigit suffix' Hs') as (t0 & c & Ep & Hc).
    rewrite Ep, (app_assoc (chars p')) in E.
    apply (digits_run_unique _ _ _ _ _ []) in E as (_ & _ & E);
      [by destruct n|done..].
  - apply digits_run_unique in E as (E & _); [|done..].
    by apply patterns_exclusive in E.
Qed.

Lemma table_suffixes suffix lang :
  (suffix, lang) ∈ PRINT_STATUS_TO_LANGUAGE → suffix ∈ PRINT_STATUS_SUFFIXES.
Proof.
  unfold PRINT_STATUS_TO_LANGUAGE, PRINT_STATUS_SUFFIXES.
  rewrite !elem_of_cons, !elem_of_nil.
  intros [H|[H|[H|[H|[H|[]]]]]]; simplify_eq; auto 10.
Qed.

Lemma suffixes_in_table suffix :
  suffix ∈ PRINT_STATUS_SUFFIXES →
  ∃ lang, (suffix, lang) ∈ PRINT_STATUS_TO_LANGUAGE.
Proof.
  unfold PRINT_STATUS_TO_LANGUAGE, PRINT_STATUS_SUFFIXES.
  rewrite !elem_of_cons, !elem_of_nil.
  intros [->|[->|[->|[->|[->|[]]]]]]; eexists; repeat constructor.
Qed.

Lemma table_functional suffix lang lang' :
  (suffix, lang) ∈ PRINT_STATUS_TO_LANGUAGE →
  (suffix, lang') ∈ PRINT_STATUS_TO_LANGUAGE → lang = lang'.
Proof.
  unfold PRINT_STATUS_TO_LANGUAGE.
  rewrite !elem_of_cons, !elem_of_nil.
  intros [H|[H|[H|[H|[H|[]]]]]] [H'|[H'|[H'|[H'|[H'|[]]]]]];
    by simplify_eq.
Qed.

Lemma detect_found entityId suffix lang :
  (suffix, lang) ∈ PRINT_STATUS_TO_LANGUAGE →
  has_status_suffix entityId suffix →
  detectLanguageFromEntity entityId = lang.
Proof.
  intros Hin Hsuf. unfold detectLanguageFromEntity.
  destruct (find _ _) as [[suffix' lang']|] eqn:E.
  - apply find_some in E as [Hin' Htest].
    apply list_elem_of_In in Hin'. apply suffix_test_spec in Htest.
    assert (suffix' = suffix) as ->.
    { eapply has_status_suffix_unique; eauto using table_suffixes. }
    by eapply table_functional.
  - apply list_elem_of_In in Hin.
    apply (find_none _ _ E) in Hin. cbn in Hin.
    apply suffix_test_spec in Hsuf. congruence.
Qed.

Lemma detect_default entityId :
  (∀ suffix, suffix ∈ PRINT_STATUS_SUFFIXES →
             ¬ has_status_suffix entityId suffix) →
  detectLanguageFromEntity entityId = en.
Proof.
  intros Hnone. unfold detectLanguageFromEntity.
  destruct (find _ _) as [[suffix' lang']|] eqn:E; [|done].
  apply find_some in E as [Hin' Htest].
  apply list_elem_of_In in Hin'. apply suffix_test_spec in Htest.
  by destruct (Hnone suffix'); [eapply table_suffixes|].
Qed.
End detection.

(** C5.  Every supported language ([en], [de], [nl], [es], [it]) has a
    print-status suffix in the table; an entity identifier that ends in [_]
    followed by the suffix of a language, optionally followed by a numeric
    disambiguator ([_2], [_3], ...), is detected as that language; and an
    identifier that carries the suffix of no language is detected as the
    base language [en]. *)
Theorem detectLanguageFromEntity_by_suffix :
  (∀ lang, ∃ suffix, (suffix, lang) ∈ PRINT_STATUS_TO_LANGUAGE) ∧
  (∀ suffix lang entityId,
      (suffix, lang) ∈ PRINT_STATUS_TO_LANGUAGE →
      has_status_suffix entityId suffix →
      detectLanguageFromEntity entityId = lang) ∧
  (∀ entityId,
      (∀ suffix lang, (suffix, lang) ∈ PRINT_STATUS_TO_LANGUAGE →
                      ¬ has_status_suffix entityId suffix) →
      detectLanguageFromEntity entityId = en).
Proof.
  split; [|split].
  - unfold PRINT_STATUS_TO_LANGUAGE. intros [].
    + exists "print_status". repeat constructor.
    + exists "druckstatus". repeat constructor.
    + exists "printstatus". repeat constructor.
    + exists "estado_de_la_impresion". repeat constructor.
    + exists "stato_di_stampa". repeat constructor.
  - intros suffix lang entityId. apply detect_found.
  - intros entityId Hnone. apply detect_default.
    intros suffix [lang Hin]%suffixes_in_table. by apply (Hnone suffix lang).
Qed.

Lemma detectLanguageFromEntity_by_suffix_witness :
  detectLanguageFromEntity "sensor.bambulab_p1s_druckstatus" = de ∧
  detectLanguageFromEntity "sensor.x1c_00m09d462101575_stato_di_stampa_2" = it ∧
  detectLanguageFromEntity "sensor.bambulab_p1s_unknown_status" = en.
Proof.
  destruct detectLanguageFromEntity_by_suffix as (_ & Hfound & Hdefault).
  split; [|split].
  - apply (Hfound "druckstatus").
    + unfold PRINT_STATUS_TO_LANGUAGE. repeat constructor.
    + left. by exists "sensor.bambulab_p1s".
  - apply (Hfound "stato_di_stampa").
    + unfold PRINT_STATUS_TO_LANGUAGE. repeat constructor.
    + right. by exists "sensor.x1c_00m09d462101575", "2".
  - apply Hdefault. intros suffix lang Hin Hsuf.
    apply suffix_test_spec in Hsuf. revert Hin Hsuf.
    unfold PRINT_STATUS_TO_LANGUAGE. rewrite !elem_of_cons, elem_of_nil.
    intros [H|[H|[H|[H|[H|[]]]]]]; simplify_eq; vm_compute; discriminate.
Defined.

(** *** The printer prefix and the numeric disambiguator *)

Lemma isPrintStatusEntity_intro entityId suffix :
  suffix ∈ PRINT_STATUS_SUFFIXES →
  startsWith entityId "sensor." = true →
  has_status_suffix entityId suffix →
  isPrintStatusEntity entityId = true.
Proof.
  intros Hs Hstart Hsuf. unfold isPrintStatusEntity. rewrite Hstart.
  cbn [negb]. apply existsb_exists. exists suffix.
  split; [by apply list_elem_of_In|]. by apply suffix_test_spec.
Qed.

Lemma after_sensor_two entityId :
  startsWith entityId "sensor." = true →
  ∃ rest, after_literal (chars "sensor.") (chars entityId) = Some rest ∧
          after_literal (chars "sensor.") (chars (entityId +:+ "_2"))
            = Some (rest ++ two).
Proof.
  intros [q ->]%startsWith_spec. exists (chars q).
  rewrite !chars_app, <- app_assoc. by rewrite !after_literal_app.
Qed.

(** The fragment [_${suffix}] does not reach into the literal [sensor.]. *)
Lemma suffix_after_sensor rest k suffix :
  chars "sensor." ++ rest = k ++ pattern_of suffix →
  ∃ k', rest = k' ++ pattern_of suffix.
Proof.
  unfold pattern_of. rewrite chars_app. cbn.
  destruct k as [|a1 [|a2 [|a3 [|a4 [|a5 [|a6 [|a7 k]]]]]]];
    intros E; simplify_eq/=. by exists k.
Qed.

(** C6, as the code has it.  For every print-status entity identifier [x]
    that ends in [_<suffix>] (it carries no numeric disambiguator), both [x]
    and [x + "_2"] are print-status entities, and [extractPrinterPrefix]
    gives the two the same prefix: the disambiguator is stripped together
    with the suffix. *)
Theorem extractPrinterPrefix_strips_disambiguator entityId suffix :
  suffix ∈ PRINT_STATUS_SUFFIXES →
  startsWith entityId "sensor." = true →
  endsWith entityId ("_" +:+ suffix) = true →
  isPrintStatusEntity entityId = true ∧
  isPrintStatusEntity (entityId +:+ "_2") = true ∧
  extractPrinterPrefix (entityId +:+ "_2") = extractPrinterPrefix entityId.
Proof.
  intros Hs Hstart Hend. split; [|split].
  - eapply isPrintStatusEntity_intro; [done..|].
    left. by apply endsWith_spec.
  - eapply isPrintStatusEntity_intro; [done|..].
    + apply startsWith_spec in Hstart as [q ->].
      apply startsWith_spec. exists (q +:+ "_2"). apply chars_inj.
      by rewrite !chars_app, app_assoc.
    + right. apply endsWith_spec in Hend as [p ->].
      exists p, "2". split; [done|]. split; [done|]. apply chars_inj.
      by rewrite !chars_app, <- !app_assoc.
  - destruct (after_sensor_two entityId Hstart) as (rest & E & E2).
    apply endsWith_spec in Hend as [p Hp].
    assert (∃ k, rest = k ++ pattern_of suffix) as [k ->].
    { apply after_literal_spec in E. apply (suffix_after_sensor _ (chars p)).
      rewrite <- E, Hp. by rewrite chars_app. }
    unfold extractPrinterPrefix, match_print_status. rewrite E, E2.
    rewrite lazy_capture_two
      by by apply ends_nondigit_app, pattern_ends_nondigit.
    destruct (lazy_capture _); [done|]. f_equal.
    by apply (strip_known_two PRINT_STATUS_SUFFIXES suffix k).
Qed.

Lemma extractPrinterPrefix_strips_disambiguator_witness :
  extractPrinterPrefix ("sensor.bambulab_p1s_druckstatus" +:+ "_2")
  = extractPrinterPrefix "sensor.bambulab_p1s_druckstatus".
Proof.
  apply (extractPrinterPrefix_strips_disambiguator
           "sensor.bambulab_p1s_druckstatus" "druckstatus").
  - unfold PRINT_STATUS_SUFFIXES. repeat constructor.
  - reflexivity.
  - reflexivity.
Defined.

(** C6 as the specification words it fails: the prefixes of a print-status
    identifier and of the same identifier with [_2] appended are equal, not
    distinct; and appending [_2] to an identifier that already carries a
    disambiguator gives an identifier that is no print-status entity. *)
Lemma extractPrinterPrefix_two_not_distinct :
  let x := "sensor.x1c_00m09d462101575_print_status" in
  let y := "sensor.x1c_00m09d462101575_print_status_2" in
  (isPrintStatusEntity x = true ∧
   ¬ (extractPrinterPrefix x ≠ extractPrinterPrefix (x +:+ "_2"))) ∧
  (isPrintStatusEntity y = true ∧
   isPrintStatusEntity (y +:+ "_2") = false).
Proof. repeat split. intros H. by apply H. Qed.

(** *** Numeric disambiguators *)

Section disambiguators.
Implicit Types (s p q n suffix : string) (t v ds k a : list ascii)
  (version : option string).

Lemma chars_disambiguator n : chars (disambiguator (Some n)) = "_"%char :: chars n.
Proof. unfold disambiguator. by rewrite chars_app. Qed.

Lemma numeral_text ds :
  ds ≠ [] → forallb is_digit ds = true → numeral (text ds).
Proof.
  intros Hne Hds. split; [by destruct ds|].
  by rewrite list_ascii_of_string_of_list_ascii.
Qed.

Lemma numeral_chars n : numeral n → chars n ≠ [] ∧ forallb is_digit (chars n) = true.
Proof. intros [Hne Hds]. split; [by destruct n|done]. Qed.

Lemma opt_version_capture_spec t version :
  opt_version_capture t = Some version ↔
  numbered version ∧ t = chars (disambiguator version).
Proof.
  unfold opt_version_capture. destruct t as [|c t].
  - split; [by intros [= <-]|]. intros [_ Ht].
    destruct version as [n|]; [|done]. by rewrite chars_disambiguator in Ht.
  - destruct (version_suffix (c :: t)) eqn:E.
    + apply version_suffix_spec in E as (ds & Hne & Hds & [= -> ->]). split.
      * intros [= <-]. rewrite chars_disambiguator.
        rewrite list_ascii_of_string_of_list_ascii. split; [|done].
        by apply numeral_text.
      * intros [_ Ht]. destruct version as [n|]; [|done].
        rewrite chars_disambiguator in Ht. injection Ht as ->.
        by rewrite string_of_list_ascii_of_string.
    + split; [done|]. intros [Hv Ht]. destruct version as [n|]; [|done].
      rewrite chars_disambiguator in Ht. rewrite Ht in E.
      apply numeral_chars in Hv as [Hne Hds].
      assert (version_suffix ("_"%char :: chars n) = true) as E'; [|congruence].
      apply version_suffix_spec. by exists (chars n).
Qed.

Lemma opt_version_suffix_numbered t :
  opt_version_suffix t = true ↔
  ∃ version, numbered version ∧ t = chars (disambiguator version).
Proof.
  rewrite opt_version_suffix_spec, version_suffix_spec. split.
  - intros [->|(ds & Hne & Hds & ->)]; [by exists None|].
    exists (Some (text ds)). rewrite chars_disambiguator.
    rewrite list_ascii_of_string_of_list_ascii. split; [|done].
    by apply numeral_text.
  - intros ([n|] & Hn & ->); [right|by left]. rewrite chars_disambiguator.
    apply numeral_chars in Hn as [Hne Hds]. by exists (chars n).
Qed.

(** What precedes the disambiguator ends in a character that is no digit:
    an identifier splits in one way only. *)
Lemma disambiguated_unique a a' version version' :
  ends_nondigit a → ends_nondigit a' → numbered version → numbered version' →
  a ++ chars (disambiguator version) = a' ++ chars (disambiguator version') →
  a = a' ∧ version = version'.
Proof.
  intros Ha Ha' Hv Hv'.
  destruct version as [n|], version' as [n'|];
    rewrite ?chars_disambiguator; cbn [disambiguator chars]; rewrite ?app_nil_r.
  - apply numeral_chars in Hv as [Hne Hds], Hv' as [Hne' Hds'].
    intros (-> & _ & ->%chars_inj)%digits_run_unique; done.
  - apply numeral_chars in Hv as [Hne Hds]. intros E.
    destruct (ends_nondigit_digits (a ++ ["_"%char]) (chars n)); [done..|].
    rewrite <- app_assoc. cbn [app]. by rewrite E.
  - apply numeral_chars in Hv' as [Hne Hds]. intros E.
    destruct (ends_nondigit_digits (a' ++ ["_"%char]) (chars n')); [done..|].
    rewrite <- app_assoc. cbn [app]. by rewrite <- E.
  - by intros ->.
Qed.

Lemma has_status_suffix_numbered entityId suffix :
  has_status_suffix entityId suffix ↔
  ∃ p version, numbered version ∧
               entityId = p +:+ "_" +:+ suffix +:+ disambiguator version.
Proof.
  assert (∀ x, x +:+ "" = x) as Hnil.
  { intros x. apply chars_inj. by rewrite chars_app, app_nil_r. }
  unfold has_status_suffix. split.
  - intros [[p ->]|(p & n & Hne & Hds & ->)].
    + exists p, None. by rewrite !Hnil.
    + by exists p, (Some n).
  - intros (p & [n|] & Hv & ->).
    + right. destruct Hv as [Hne Hds]. by exists p, n.
    + left. exists p. cbn [disambiguator]. by rewrite !Hnil.
Qed.

(** The end of [buildPrintStatusPattern]: [_], a suffix of the table and the
    optional disambiguator. *)
Lemma status_tail_spec t :
  status_tail t = true ↔
  ∃ suffix version, suffix ∈ PRINT_STATUS_SUFFIXES ∧ numbered version ∧
                    t = pattern_of suffix ++ chars (disambiguator version).
Proof.
  unfold status_tail. rewrite existsb_exists. split.
  - intros (suffix & Hin%list_elem_of_In & H). unfold opt_numbered_at in H.
    fold (pattern_of suffix) in H.
    destruct (after_literal _ t) as [v|] eqn:E; [|done].
    apply after_literal_spec in E as ->.
    apply opt_version_suffix_numbered in H as (version & Hv & ->).
    by exists suffix, version.
  - intros (suffix & version & Hin & Hv & ->). exists suffix.
    split; [by apply list_elem_of_In|]. unfold opt_numbered_at.
    fold (pattern_of suffix). rewrite after_literal_app.
    apply opt_version_suffix_numbered. by exists version.
Qed.

Lemma opt_numbered_at_numbered suffix t :
  opt_numbered_at suffix t = true ↔
  ∃ version, numbered version ∧
             t = pattern_of suffix ++ chars (disambiguator version).
Proof.
  unfold opt_numbered_at. fold (pattern_of suffix).
  destruct (after_literal _ t) as [v|] eqn:E.
  - apply after_literal_spec in E as ->. rewrite opt_version_suffix_numbered.
    split; intros (version & Hv & H); exists version; simplify_list_eq; done.
  - split; [done|]. intros (version & _ & ->).
    by rewrite after_literal_app in E.
Qed.

(** A string ends in the fragment of one suffix only, at one place. *)
Lemma status_split_unique k k' suffix suffix' version version' :
  suffix ∈ PRINT_STATUS_SUFFIXES → suffix' ∈ PRINT_STATUS_SUFFIXES →
  numbered version → numbered version' →
  k ++ pattern_of suffix ++ chars (disambiguator version) =
    k' ++ pattern_of suffix' ++ chars (disambiguator version') →
  k = k' ∧ suffix = suffix' ∧ version = version'.
Proof.
  intros Hs Hs' Hv Hv'. rewrite !app_assoc.
  intros [E ->]%disambiguated_unique;
    try done; try by apply ends_nondigit_app, pattern_ends_nondigit.
  pose proof (patterns_exclusive _ _ _ _ Hs Hs' E) as ->.
  by apply app_inv_tail in E.
Qed.

Lemma status_tail_unique k t :
  status_tail t = true → status_tail (k ++ t) = true → k = [].
Proof.
  intros (s & v & Hs & Hv & ->)%status_tail_spec
         (s' & v' & Hs' & Hv' & E)%status_tail_spec.
  apply (status_split_unique k [] s s' v v') in E as (-> & _); done.
Qed.
End disambiguators.

(** *** The print-status pattern and the printer prefix *)

Section print_status.
Implicit Types (entityId s p q n suffix : string) (t u v ds k g r : list ascii)
  (version : option string).

Lemma line_terminator_at_underscore t u :
  t ≠ [] → line_terminator_at (t ++ "_"%char :: u) = line_terminator_at t.
Proof.
  intros Hne. destruct t as [|c [|b [|d t]]]; [done|..]; [destruct u|..];
    cbn; try done; repeat case_bool_decide; by simplify_eq/=.
Qed.

Lemma status_tail_head t : status_tail t = true → ∃ u, t = "_"%char :: u.
Proof.
  intros (suffix & version & _ & _ & ->)%status_tail_spec.
  unfold pattern_of. rewrite chars_app. by eexists.
Qed.

Lemma lazy_capture_intro g t :
  g ≠ [] → single_line g = true → status_tail t = true →
  lazy_capture (g ++ t) = Some g.
Proof.
  intros Hne Hsl Ht. destruct (status_tail_head t Ht) as [u Hu].
  induction g as [|c g IH]; [done|]. cbn [single_line] in Hsl.
  apply andb_true_iff in Hsl as [Hlt%negb_true_iff Hsl].
  change ((c :: g) ++ t) with (c :: (g ++ t)). cbn [lazy_capture].
  change (c :: (g ++ t)) with ((c :: g) ++ t).
  rewrite Hu at 1. rewrite line_terminator_at_underscore, Hlt by done.
  destruct (status_tail (g ++ t)) eqn:E.
  - by rewrite (status_tail_unique g t).
  - destruct g as [|d g]; [change (status_tail t = false) in E; congruence|].
    by rewrite IH.
Qed.

Lemma lazy_capture_elim r g :
  lazy_capture r = Some g →
  g ≠ [] ∧ single_line g = true ∧ ∃ t, r = g ++ t ∧ status_tail t = true.
Proof.
  revert g. induction r as [|c r IH]; intros g; cbn [lazy_capture]; [done|].
  destruct (line_terminator_at (c :: r)) eqn:Hlt; [done|].
  destruct (status_tail r) eqn:Ht.
  - intros [= <-]. split; [done|]. split; [|by exists r].
    destruct (status_tail_head r Ht) as [u ->].
    change (c :: "_"%char :: u) with ([c] ++ "_"%char :: u) in Hlt.
    rewrite line_terminator_at_underscore in Hlt by done.
    cbn [single_line]. by rewrite Hlt.
  - destruct (lazy_capture r) as [g'|]; [|done]. intros [= <-].
    destruct (IH g' eq_refl) as (Hne & Hsl & t & -> & Ht').
    split; [done|]. split; [|by exists t].
    destruct (status_tail_head t Ht') as [u ->].
    change (c :: g' ++ "_"%char :: u) with ((c :: g') ++ "_"%char :: u) in Hlt.
    rewrite line_terminator_at_underscore in Hlt by done.
    cbn [single_line]. by rewrite Hlt.
Qed.

(** What [buildPrintStatusPattern] matches, and the group it captures. *)
Lemma match_print_status_chars entityId g :
  match_print_status entityId = Some g ↔
  g ≠ [] ∧ single_line g = true ∧
  ∃ suffix version, suffix ∈ PRINT_STATUS_SUFFIXES ∧ numbered version ∧
    chars entityId = chars "sensor." ++ g ++ pattern_of suffix ++
                     chars (disambiguator version).
Proof.
  unfold match_print_status. split.
  - destruct (after_literal _ _) as [r|] eqn:E; [|done].
    apply after_literal_spec in E.
    intros (Hne & Hsl & t & -> & Ht)%lazy_capture_elim.
    apply status_tail_spec in Ht as (suffix & version & Hs & Hv & ->).
    split; [done|]. split; [done|]. by exists suffix, version.
  - intros (Hne & Hsl & suffix & version & Hs & Hv & ->).
    rewrite after_literal_app. apply lazy_capture_intro; [done..|].
    apply status_tail_spec. by exists suffix, version.
Qed.

Lemma chars_status_id p suffix version :
  chars ("sensor." +:+ p +:+ "_" +:+ suffix +:+ disambiguator version)
  = chars "sensor." ++ chars p ++ pattern_of suffix ++
    chars (disambiguator version).
Proof. unfold pattern_of. by rewrite !chars_app, <- ?app_assoc. Qed.

(** The fragment [_${suffix}] does not reach into the literal [sensor.]. *)
Lemma sensor_then_underscore r k u :
  chars "sensor." ++ r = k ++ "_"%char :: u →
  ∃ k', k = chars "sensor." ++ k' ∧ r = k' ++ "_"%char :: u.
Proof.
  cbn. destruct k as [|a1 [|a2 [|a3 [|a4 [|a5 [|a6 [|a7 k]]]]]]];
    intros E; simplify_eq/=. by exists k.
Qed.

Lemma replace_to_end_match (m : list ascii → bool) r :
  m r = true → replace_to_end m r = [].
Proof. intros H. destruct r; cbn [replace_to_end]; by rewrite H. Qed.

Lemma replace_to_end_nil (m : list ascii → bool) : replace_to_end m [] = [].
Proof. cbn. by destruct (m []). Qed.

Lemma replace_to_end_prefix (m : list ascii → bool) r :
  replace_to_end m r `prefix_of` r.
Proof.
  induction r as [|c r IH]; cbn [replace_to_end]; destruct (m _);
    try apply prefix_nil. by apply prefix_cons.
Qed.

Lemma strip_known_nil suffixes : strip_known suffixes [] = [].
Proof.
  induction suffixes as [|s suffixes IH]; [done|].
  cbn [strip_known fold_left]. by rewrite replace_to_end_nil.
Qed.

Lemma strip_known_prefix suffixes r : strip_known suffixes r `prefix_of` r.
Proof.
  revert r. induction suffixes as [|s suffixes IH]; intros r; [done|].
  cbn [strip_known fold_left]. etrans; [apply IH|apply replace_to_end_prefix].
Qed.

Lemma strip_known_no_match suffixes r :
  (∀ s, s ∈ suffixes → search (opt_numbered_at s) r = false) →
  strip_known suffixes r = r.
Proof.
  induction suffixes as [|s suffixes IH]; intros Hnone; [done|].
  cbn [strip_known fold_left].
  rewrite replace_to_end_no_match by (apply Hnone; left).
  apply IH. intros s' Hs'. apply Hnone. by right.
Qed.

(** The fallback strips an identifier that is nothing but the fragment. *)
Lemma strip_known_fragment suffixes suffix version :
  suffixes ⊆ PRINT_STATUS_SUFFIXES → suffix ∈ suffixes → numbered version →
  strip_known suffixes (pattern_of suffix ++ chars (disambiguator version)) = [].
Proof.
  intros Hsub Hin Hv. set (r := _ ++ _).
  assert (opt_numbered_at suffix r = true) as Hr.
  { apply opt_numbered_at_numbered. by exists version. }
  induction suffixes as [|s suffixes IH]; [by apply elem_of_nil in Hin|].
  cbn [strip_known fold_left]. destruct (decide (s = suffix)) as [->|Hne].
  - rewrite replace_to_end_match by done. apply strip_known_nil.
  - rewrite replace_to_end_no_match.
    + apply IH.
      * intros x Hx. apply Hsub. by right.
      * by apply elem_of_cons in Hin as [->|].
    + destruct (search _ r) eqn:E; [|done].
      apply search_spec in E
        as (k & v & E & (version' & Hv' & ->)%opt_numbered_at_numbered).
      apply (status_split_unique [] k suffix s version version') in E
        as (_ & -> & _); try done.
      * by apply Hsub.
      * apply Hsub. by left.
Qed.

(** The prefix of a print-status identifier, read back. *)
Lemma extractPrinterPrefix_chars entityId g suffix version :
  single_line g = true →
  suffix ∈ PRINT_STATUS_SUFFIXES → numbered version →
  chars entityId = chars "sensor." ++ g ++ pattern_of suffix ++
                   chars (disambiguator version) →
  extractPrinterPrefix entityId = text g.
Proof.
  intros Hsl Hs Hv E. unfold extractPrinterPrefix.
  destruct (decide (g = [])) as [->|Hne].
  - destruct (match_print_status entityId) as [g'|] eqn:M.
    + apply match_print_status_chars
        in M as (Hg & _ & suffix' & version' & Hs' & Hv' & E').
      rewrite E in E'. apply app_inv_head in E'.
      by apply (status_split_unique [] g') in E' as (<- & _).
    + rewrite E, after_literal_app. cbn [app].
      by rewrite (strip_known_fragment PRINT_STATUS_SUFFIXES).
  - rewrite (proj2 (match_print_status_chars entityId g)); [done|].
    split; [done|]. split; [done|]. by exists suffix, version.
Qed.
(** What [extractPrinterPrefix] gives starts the identifier. *)
Lemma extractPrinterPrefix_prefix_of entityId :
  chars (extractPrinterPrefix entityId)
    `prefix_of` chars (without_sensor entityId).
Proof.
  unfold extractPrinterPrefix, without_sensor, match_print_status.
  destruct (after_literal _ _) as [r|] eqn:Er.
  - rewrite !list_ascii_of_string_of_list_ascii.
    destruct (lazy_capture r) as [g|] eqn:E.
    + apply lazy_capture_elim in E as (_ & _ & t & -> & _).
      rewrite list_ascii_of_string_of_list_ascii. by exists t.
    + rewrite list_ascii_of_string_of_list_ascii. apply strip_known_prefix.
  - rewrite list_ascii_of_string_of_list_ascii. apply strip_known_prefix.
Qed.
End print_status.

(** X1. The print-status pattern [^sensor\.(.+?)_(?:s1|...)(?:_\d+)?$]
    matches an identifier and captures [p] exactly when the identifier is
    [sensor.], [p], [_], a suffix of the table and the optional numeric
    disambiguator, with [p] not empty and free of line terminators: the lazy
    group stops at the only place where a suffix can start. *)
Theorem match_print_status_spec entityId p :
  match_print_status entityId = Some (chars p) ↔
  p ≠ "" ∧ single_line (chars p) = true ∧
  ∃ suffix version, suffix ∈ PRINT_STATUS_SUFFIXES ∧ numbered version ∧
    entityId = "sensor." +:+ p +:+ "_" +:+ suffix +:+ disambiguator version.
Proof.
  rewrite match_print_status_chars. split.
  - intros (Hne & Hsl & suffix & version & Hs & Hv & E).
    split; [by destruct p|]. split; [done|]. exists suffix, version.
    split; [done|]. split; [done|]. apply chars_inj.
    by rewrite chars_status_id.
  - intros (Hne & Hsl & suffix & version & Hs & Hv & ->).
    split; [by destruct p|]. split; [done|]. exists suffix, version.
    by rewrite chars_status_id.
Qed.

(** X2. [isPrintStatusEntity] holds exactly of the identifiers that are
    [sensor.], any string [p] (it may be empty, or hold a line terminator),
    [_], a suffix of the table and the optional numeric disambiguator. *)
Theorem isPrintStatusEntity_spec entityId :
  isPrintStatusEntity entityId = true ↔
  ∃ p suffix version, suffix ∈ PRINT_STATUS_SUFFIXES ∧ numbered version ∧
    entityId = "sensor." +:+ p +:+ "_" +:+ suffix +:+ disambiguator version.
Proof.
  split.
  - unfold isPrintStatusEntity.
    destruct (startsWith entityId "sensor.") eqn:Hstart; [|done]. cbn [negb].
    rewrite existsb_exists.
    intros (suffix & Hs%list_elem_of_In & Hsuf%suffix_test_spec).
    apply has_status_suffix_numbered in Hsuf as (k & version & Hv & E).
    apply startsWith_spec in Hstart as [q Hq].
    assert (chars "sensor." ++ chars q
            = chars k ++ "_"%char :: chars suffix ++ chars (disambiguator version))
      as Hsplit.
    { rewrite <- chars_app, <- Hq, E. by rewrite !chars_app, <- ?app_assoc. }
    apply sensor_then_underscore in Hsplit as (k' & Hk & _).
    exists (text k'), suffix, version. split; [done|]. split; [done|].
    rewrite E. apply chars_inj. rewrite !chars_app, Hk.
    by rewrite list_ascii_of_string_of_list_ascii, <- ?app_assoc.
  - intros (p & suffix & version & Hs & Hv & ->).
    apply (isPrintStatusEntity_intro _ suffix); [done|..].
    + apply startsWith_spec.
      by exists (p +:+ "_" +:+ suffix +:+ disambiguator version).
    + apply has_status_suffix_numbered. exists ("sensor." +:+ p), version.
      split; [done|]. apply chars_inj. by rewrite !chars_app, <- ?app_assoc.
Qed.

(** X3. Round trip. For every prefix [p] free of line terminators (also the
    empty one), every suffix of the table and every optional numeric
    disambiguator, [extractPrinterPrefix] gives [p] back from
    [sensor.<p>_<suffix>] and from [sensor.<p>_<suffix>_<n>]. *)
Theorem extractPrinterPrefix_round_trip p suffix version :
  single_line (chars p) = true →
  suffix ∈ PRINT_STATUS_SUFFIXES → numbered version →
  extractPrinterPrefix
    ("sensor." +:+ p +:+ "_" +:+ suffix +:+ disambiguator version) = p.
Proof.
  intros Hsl Hs Hv.
  rewrite (extractPrinterPrefix_chars _ (chars p) suffix version);
    [apply string_of_list_ascii_of_string|done..|apply chars_status_id].
Qed.

Lemma extractPrinterPrefix_round_trip_witness :
  extractPrinterPrefix
    ("sensor." +:+ "x1c_00m09d462101575" +:+ "_" +:+ "druckstatus" +:+
     disambiguator (Some "2")) = "x1c_00m09d462101575" ∧
  extractPrinterPrefix
    ("sensor." +:+ "" +:+ "_" +:+ "print_status" +:+ disambiguator None) = "".
Proof.
  split.
  - apply (extractPrinterPrefix_round_trip
             "x1c_00m09d462101575" "druckstatus" (Some "2")).
    + reflexivity.
    + unfold PRINT_STATUS_SUFFIXES. repeat constructor.
    + split; [discriminate|reflexivity].
  - apply (extractPrinterPrefix_round_trip "" "print_status" None).
    + reflexivity.
    + unfold PRINT_STATUS_SUFFIXES. repeat constructor.
    + exact I.
Defined.

(** X4. The fallback. An identifier that ends in no suffix of the table
    (with or without disambiguator) is returned whole, but for a leading
    [sensor.]. *)
Theorem extractPrinterPrefix_without_suffix entityId :
  (∀ suffix, suffix ∈ PRINT_STATUS_SUFFIXES →
             ¬ has_status_suffix entityId suffix) →
  extractPrinterPrefix entityId = without_sensor entityId.
Proof.
  intros Hnone. unfold extractPrinterPrefix, without_sensor.
  destruct (match_print_status entityId) as [g|] eqn:E.
  { apply match_print_status_chars
      in E as (_ & _ & suffix & version & Hs & Hv & E).
    destruct (Hnone suffix Hs). apply has_status_suffix_numbered.
    exists ("sensor." +:+ text g), version. split; [done|]. apply chars_inj.
    rewrite E, !chars_app, list_ascii_of_string_of_list_ascii.
    unfold pattern_of. by rewrite chars_app, <- ?app_assoc. }
  assert (∀ k r, chars entityId = k ++ r →
                 strip_known PRINT_STATUS_SUFFIXES r = r) as Hkeep.
  { intros k r Hr. apply strip_known_no_match. intros s Hs.
    destruct (search _ r) eqn:Hfound; [|done].
    apply search_spec in Hfound
      as (k' & v & -> & (version & Hv & ->)%opt_numbered_at_numbered).
    destruct (Hnone s Hs). apply has_status_suffix_numbered.
    exists (text (k ++ k')), version. split; [done|]. apply chars_inj.
    rewrite Hr, !chars_app, list_ascii_of_string_of_list_ascii.
    unfold pattern_of. by rewrite chars_app, <- ?app_assoc. }
  destruct (after_literal _ _) as [r|] eqn:Er.
  - apply after_literal_spec in Er. by rewrite (Hkeep _ _ Er).
  - rewrite (Hkeep [] (chars entityId)) by done.
    apply string_of_list_ascii_of_string.
Qed.

Lemma extractPrinterPrefix_without_suffix_witness :
  extractPrinterPrefix "sensor.x1c_ams_1_tray_1"
  = without_sensor "sensor.x1c_ams_1_tray_1".
Proof.
  apply extractPrinterPrefix_without_suffix. intros suffix Hin Hsuf.
  apply suffix_test_spec in Hsuf. revert Hin Hsuf.
  unfold PRINT_STATUS_SUFFIXES. rewrite !elem_of_cons, elem_of_nil.
  intros [->|[->|[->|[->|[->|[]]]]]]; vm_compute; discriminate.
Defined.

(** X5. [extractPrinterPrefix] only cuts at the end: the result is an
    initial part of the identifier without its leading [sensor.]. *)
Theorem extractPrinterPrefix_initial entityId :
  ∃ dropped,
    without_sensor entityId = extractPrinterPrefix entityId +:+ dropped.
Proof.
  destruct (extractPrinterPrefix_prefix_of entityId) as [t Ht].
  exists (text t). apply chars_inj.
  by rewrite chars_app, list_ascii_of_string_of_list_ascii.
Qed.

(** X6. The prefix can be spliced into a pattern. When the identifier,
    without its leading [sensor.], is made of word characters (letters,
    digits and [_]), so is the prefix [extractPrinterPrefix] gives: read as
    the source of a regular expression by the pattern builders, it stands
    for itself. *)
Theorem extractPrinterPrefix_literal entityId :
  literal_source (without_sensor entityId) = true →
  literal_source (extractPrinterPrefix entityId) = true.
Proof.
  unfold literal_source.
  destruct (extractPrinterPrefix_prefix_of entityId) as [t ->].
  rewrite forallb_app. by intros [-> _]%andb_true_iff.
Qed.

Lemma extractPrinterPrefix_literal_witness :
  literal_source (extractPrinterPrefix "sensor.x1c_00m09d462101575_druckstatus")
  = true.
Proof.
  apply (extractPrinterPrefix_literal "sensor.x1c_00m09d462101575_druckstatus").
  reflexivity.
Defined.

(** X7. Every print-status entity has a language: the identifier carries a
    suffix of the table, and [detectLanguageFromEntity] gives the language
    of that suffix, never the default for want of one. *)
Theorem print_status_entity_language entityId :
  isPrintStatusEntity entityId = true →
  ∃ suffix,
    (suffix, detectLanguageFromEntity entityId) ∈ PRINT_STATUS_TO_LANGUAGE ∧
    has_status_suffix entityId suffix.
Proof.
  unfold isPrintStatusEntity.
  destruct (startsWith entityId "sensor."); [|done]. cbn [negb].
  rewrite existsb_exists.
  intros (suffix & Hs%list_elem_of_In & Hsuf%suffix_test_spec).
  destruct (suffixes_in_table suffix Hs) as [lang Hin].
  exists suffix. by rewrite (detect_found entityId suffix lang).
Qed.

Lemma print_status_entity_language_witness :
  ∃ suffix,
    (suffix, detectLanguageFromEntity "sensor.bambulab_p1s_druckstatus_2")
      ∈ PRINT_STATUS_TO_LANGUAGE ∧
    has_status_suffix "sensor.bambulab_p1s_druckstatus_2" suffix.
Proof.
  apply (print_status_entity_language "sensor.bambulab_p1s_druckstatus_2").
  reflexivity.
Defined.

(** *** The patterns of the other sensors *)

Section named_patterns.
Implicit Types (entityId prefix s p q n name number : string)
  (names : list string) (t u v ds k r : list ascii) (version : option string).

Lemma disambiguator_inj version version' :
  chars (disambiguator version) = chars (disambiguator version') →
  version = version'.
Proof.
  destruct version as [n|], version' as [n'|];
    rewrite ?chars_disambiguator; try done.
  by intros [= ->%chars_inj].
Qed.

Lemma ends_nondigitb_spec t : ends_nondigitb t = true → ends_nondigit t.
Proof.
  unfold ends_nondigitb. destruct (rev t) as [|c k] eqn:E; [done|].
  intros Hc%negb_true_iff. exists (rev k), c. split; [|done].
  by rewrite <- (rev_involutive t), E.
Qed.

(** Names that end in a letter are alternatives of which one only can end
    an identifier. *)
Lemma lettered_names_unambiguous names :
  forallb (λ n, ends_nondigitb (chars n)) names = true →
  ∀ n n' version version',
    n ∈ names → n' ∈ names → numbered version → numbered version' →
    chars n ++ chars (disambiguator version)
      = chars n' ++ chars (disambiguator version') →
    n = n'.
Proof.
  intros Hall n n' version version' Hn Hn' Hv Hv' E.
  rewrite forallb_forall in Hall.
  apply disambiguated_unique in E as [E%chars_inj _]; try done;
    by apply ends_nondigitb_spec, Hall, list_elem_of_In.
Qed.

Lemma literal_then_version lit t version :
  after_literal lit t ≫= opt_version_capture = Some version ↔
  numbered version ∧ t = lit ++ chars (disambiguator version).
Proof.
  destruct (after_literal lit t) as [v|] eqn:E; cbn.
  - apply after_literal_spec in E as ->. rewrite opt_version_capture_spec.
    split; intros [Hv H]; simplify_list_eq; done.
  - split; [done|]. intros [_ ->]. by rewrite after_literal_app in E.
Qed.

(** The ordered alternation: with unambiguous alternatives, the name
    captured is the one the identifier ends in. *)
Lemma first_name_spec names t name version :
  (∀ n n' version version',
     n ∈ names → n' ∈ names → numbered version → numbered version' →
     chars n ++ chars (disambiguator version)
       = chars n' ++ chars (disambiguator version') →
     n = n') →
  first_name names t = Some (name, version) ↔
  name ∈ names ∧ numbered version ∧
  t = chars name ++ chars (disambiguator version).
Proof.
  induction names as [|a names IH]; intros Hamb; cbn [first_name].
  { split; [done|]. by intros [?%elem_of_nil _]. }
  destruct (after_literal (chars a) t ≫= opt_version_capture) as [v0|] eqn:E.
  - apply literal_then_version in E as [Hv0 ->]. split.
    + intros [= <- <-]. split; [left|done].
    + intros (Hin & Hv & E).
      assert (a = name) as ->.
      { apply (Hamb a name v0 version); try done. left. }
      by apply app_inv_head, disambiguator_inj in E as ->.
  - rewrite IH.
    + split.
      * intros (Hin & Hv & ->). split; [by right|done].
      * intros (Hin & Hv & ->). split; [|done].
        apply elem_of_cons in Hin as [->|Hin]; [|done].
        assert (after_literal (chars a)
                  (chars a ++ chars (disambiguator version))
                ≫= opt_version_capture = Some version) as E'; [|congruence].
        by apply literal_then_version.
    + intros n n' w w' Hn Hn'. apply Hamb; by right.
Qed.

Lemma span_digits_spec t ds r :
  span_digits t = (ds, r) → t = ds ++ r ∧ forallb is_digit ds = true.
Proof.
  revert ds r. induction t as [|c t IH]; intros ds r; cbn [span_digits].
  { by intros [= <- <-]. }
  destruct (is_digit c) eqn:Hc; [|by intros [= <- <-]].
  destruct (span_digits t) as [ds' r']. intros [= <- <-].
  destruct (IH ds' r' eq_refl) as [-> Hds]. cbn. by rewrite Hc, Hds.
Qed.

Lemma span_digits_app ds c r :
  forallb is_digit ds = true → is_digit c = false →
  span_digits (ds ++ c :: r) = (ds, c :: r).
Proof.
  intros Hds Hc. induction ds as [|d ds IH]; cbn [app span_digits].
  - by rewrite Hc.
  - cbn in Hds. apply andb_true_iff in Hds as [-> Hds]. by rewrite IH.
Qed.

Lemma pretty_N_char_digit x : is_digit (pretty_N_char x) = true.
Proof. unfold pretty_N_char. by repeat case_match. Qed.

Lemma pretty_N_go_numeral x s :
  forallb is_digit (chars s) = true → (s ≠ "" ∨ 0 < x)%N →
  numeral (pretty_N_go x s).
Proof.
  revert s. induction (N.lt_wf_0 x) as [x _ IH]; intros s Hs Hne.
  destruct (decide (x = 0%N)) as [->|Hx].
  - rewrite pretty_N_go_0. split; [|done]. destruct Hne; [done|lia].
  - rewrite pretty_N_go_step by lia. apply IH.
    + apply N.div_lt; lia.
    + cbn. by rewrite pretty_N_char_digit, Hs.
    + by left.
Qed.

(** [`${trayNum}`] is a numeral. *)
Lemma pretty_N_numeral (x : N) : numeral (pretty x).
Proof.
  unfold pretty, pretty_N. case_decide; [done|].
  apply pretty_N_go_numeral; [done|]. right. lia.
Qed.

(** A tray sensor has one name, one tray number and one disambiguator. *)
Lemma tray_name_unique name name' (trayNum trayNum' : N) version version' :
  name ∈ TRAY_NAMES → name' ∈ TRAY_NAMES →
  numbered version → numbered version' →
  chars (name +:+ "_" +:+ pretty trayNum) ++ chars (disambiguator version)
    = chars (name' +:+ "_" +:+ pretty trayNum') ++
      chars (disambiguator version') →
  name = name' ∧ trayNum = trayNum' ∧ version = version'.
Proof.
  intros Hin Hin' Hv Hv'.
  destruct (numeral_chars _ (pretty_N_numeral trayNum)) as [Hne Hds].
  destruct (numeral_chars _ (pretty_N_numeral trayNum')) as [Hne' Hds'].
  assert (∀ q, q ∈ TRAY_NAMES → ends_nondigit (chars q)) as Hletter.
  { intros q Hq. apply ends_nondigitb_spec. revert Hq.
    unfold TRAY_NAMES. rewrite !elem_of_cons, elem_of_nil.
    by intros [->|[->|[->|[]]]]. }
  assert (∀ q (x : N), chars (q +:+ "_" +:+ pretty x)
                       = chars q ++ "_"%char :: chars (pretty x)) as Hname.
  { intros. by rewrite !chars_app. }
  assert (∀ k q (x : N), k ++ "_"%char :: chars (pretty x) = chars q →
                         q ∈ TRAY_NAMES → False) as Hdigit.
  { intros k q x E Hq.
    destruct (numeral_chars _ (pretty_N_numeral x)) as [Hnex Hdsx].
    destruct (ends_nondigit_digits (k ++ ["_"%char]) (chars (pretty x)));
      [done..|].
    rewrite <- app_assoc. cbn [app]. rewrite E. by apply Hletter. }
  assert (chars name ++ "_"%char :: chars (pretty trayNum)
          = chars name' ++ "_"%char :: chars (pretty trayNum') →
          name = name' ∧ trayNum = trayNum') as Hplain.
  { intros (E%chars_inj & _ & E'%chars_inj)%digits_run_unique; [|done..].
    split; [done|]. by apply (inj pretty). }
  rewrite !Hname.
  destruct version as [d|], version' as [d'|];
    rewrite ?chars_disambiguator; cbn [disambiguator chars];
    rewrite ?app_nil_r.
  - apply numeral_chars in Hv as [_ Hd], Hv' as [_ Hd'].
    intros (E & _ & ->%chars_inj)%digits_run_unique; [|done..].
    by destruct (Hplain E) as [-> ->].
  - apply numeral_chars in Hv as [_ Hd].
    intros (E & _)%digits_run_unique; [|done..]. by destruct (Hdigit _ _ _ E).
  - apply numeral_chars in Hv' as [_ Hd'].
    intros (E & _)%digits_run_unique; [|done..].
    symmetry in E. by destruct (Hdigit _ _ _ E).
  - intros E. by destruct (Hplain E) as [-> ->].
Qed.

Lemma tray_names_unambiguous (trayNum : N) :
  ∀ n n' version version',
    n ∈ map (λ name, name +:+ "_" +:+ pretty trayNum) TRAY_NAMES →
    n' ∈ map (λ name, name +:+ "_" +:+ pretty trayNum) TRAY_NAMES →
    numbered version → numbered version' →
    chars n ++ chars (disambiguator version)
      = chars n' ++ chars (disambiguator version') →
    n = n'.
Proof.
  intros n n' version version' Hn Hn' Hv Hv'.
  apply list_elem_of_In, in_map_iff in Hn as (name & <- & Hin%list_elem_of_In).
  apply list_elem_of_In, in_map_iff in Hn' as (name' & <- & Hin'%list_elem_of_In).
  by intros (-> & _)%tray_name_unique.
Qed.

Lemma named_sensor_pattern_spec names prefix entityId name version :
  forallb (λ n, ends_nondigitb (chars n)) names = true →
  named_sensor_pattern names prefix entityId = Some (name, version) ↔
  name ∈ names ∧ numbered version ∧
  entityId = ("sensor." +:+ prefix +:+ "_") +:+ name +:+ disambiguator version.
Proof.
  intros Hall. unfold named_sensor_pattern.
  destruct (after_literal _ (chars entityId)) as [r|] eqn:E; cbn.
  - apply after_literal_spec in E.
    rewrite first_name_spec by by apply lettered_names_unambiguous.
    split; intros (Hin & Hv & H); (split; [done|split; [done|]]).
    + apply chars_inj.
      by rewrite E, H, (chars_app ("sensor." +:+ prefix +:+ "_")),
        (chars_app name).
    + rewrite H, (chars_app ("sensor." +:+ prefix +:+ "_")), (chars_app name)
        in E.
      by apply app_inv_head in E.
  - split; [done|]. intros (_ & _ & ->).
    by rewrite (chars_app ("sensor." +:+ prefix +:+ "_")), after_literal_app in E.
Qed.

Lemma app_string_assoc s p q : (s +:+ p) +:+ q = s +:+ p +:+ q.
Proof. apply chars_inj. by rewrite !chars_app, app_assoc. Qed.

Lemma pattern_for_names entityType :
  pattern_for entityType = named_sensor_pattern (names_of entityType) ∧
  forallb (λ n, ends_nondigitb (chars n)) (names_of entityType) = true.
Proof. by destruct entityType. Qed.

Lemma buildAmsPattern_chars prefix entityId number version :
  buildAmsPattern prefix entityId = Some (number, version) ↔
  numeral number ∧ numbered version ∧
  ∃ name, name ∈ AMS_HUMIDITY_NAMES ∧
    entityId = ("sensor." +:+ prefix +:+ "_ams_") +:+ number +:+ "_" +:+
               name +:+ disambiguator version.
Proof.
  assert (∀ r name version,
            first_name AMS_HUMIDITY_NAMES r = Some (name, version) ↔
            name ∈ AMS_HUMIDITY_NAMES ∧ numbered version ∧
            r = chars name ++ chars (disambiguator version)) as Hfirst.
  { intros. by apply first_name_spec, lettered_names_unambiguous. }
  unfold buildAmsPattern. split.
  - destruct (after_literal _ (chars entityId)) as [r|] eqn:E; [|done].
    cbn [mbind option_bind].
    apply after_literal_spec in E.
    destruct (span_digits r) as [ds r'] eqn:Hspan.
    apply span_digits_spec in Hspan as [-> Hds].
    destruct ds as [|d ds]; [done|]. destruct r' as [|c r']; [done|].
    case_bool_decide as Hc; [subst c|done].
    destruct (first_name AMS_HUMIDITY_NAMES r') as [[name v]|] eqn:F; [|done].
    cbn [mbind option_bind].
    intros [= <- <-]. apply Hfirst in F as (Hin & Hv & ->).
    split; [by apply (numeral_text (d :: ds))|]. split; [done|]. exists name.
    split; [done|]. apply chars_inj.
    change (String d (text ds)) with (text (d :: ds)).
    rewrite E, (chars_app ("sensor." +:+ prefix +:+ "_ams_")), !chars_app.
    by rewrite list_ascii_of_string_of_list_ascii.
  - intros (Hn & Hv & name & Hin & ->).
    rewrite (chars_app ("sensor." +:+ prefix +:+ "_ams_")), after_literal_app.
    cbn [mbind option_bind]. apply numeral_chars in Hn as [Hne Hds].
    rewrite !chars_app. cbn [chars app].
    rewrite span_digits_app by done.
    destruct (chars number) as [|d ds] eqn:En; [done|].
    rewrite bool_decide_eq_true_2 by done.
    rewrite (proj2 (Hfirst _ name version)) by done.
    cbn [mbind option_bind].
    by rewrite <- En, string_of_list_ascii_of_string.
Qed.

Lemma buildTrayPattern_chars prefix amsNumber (trayNum : N) entityId version :
  buildTrayPattern prefix amsNumber trayNum entityId = Some version ↔
  numbered version ∧
  ∃ name, name ∈ TRAY_NAMES ∧
    entityId = ("sensor." +:+ prefix +:+ "_ams_" +:+ amsNumber +:+ "_") +:+
               (name +:+ "_" +:+ pretty trayNum) +:+ disambiguator version.
Proof.
  assert (∀ r name version,
            first_name (map (λ name, name +:+ "_" +:+ pretty trayNum) TRAY_NAMES)
                       r = Some (name, version) ↔
            name ∈ map (λ name, name +:+ "_" +:+ pretty trayNum) TRAY_NAMES ∧
            numbered version ∧
            r = chars name ++ chars (disambiguator version)) as Hfirst.
  { intros. apply first_name_spec, tray_names_unambiguous. }
  unfold buildTrayPattern. split.
  - destruct (after_literal _ (chars entityId)) as [r|] eqn:E; [|done].
    cbn [mbind option_bind].
    apply after_literal_spec in E.
    destruct (first_name _ r) as [[n v]|] eqn:F; [|done].
    cbn [mbind option_bind].
    intros [= <-]. apply Hfirst in F as (Hin & Hv & ->).
    apply list_elem_of_In, in_map_iff in Hin as (name & <- & Hin%list_elem_of_In).
    split; [done|]. exists name. split; [done|]. apply chars_inj.
    by rewrite E, (chars_app ("sensor." +:+ prefix +:+ "_ams_" +:+ amsNumber +:+ "_")),
      (chars_app (name +:+ "_" +:+ pretty trayNum)).
  - intros (Hv & name & Hin & ->).
    rewrite (chars_app ("sensor." +:+ prefix +:+ "_ams_" +:+ amsNumber +:+ "_")),
      after_literal_app.
    cbn [mbind option_bind]. rewrite (chars_app (name +:+ "_" +:+ pretty trayNum)).
    rewrite (proj2 (Hfirst _ (name +:+ "_" +:+ pretty trayNum) version)); [done|].
    split; [|done]. apply list_elem_of_In, in_map_iff. exists name.
    split; [done|]. by apply list_elem_of_In.
Qed.
End named_patterns.

(** X8. The patterns of the external-spool, current-stage, print-weight and
    print-progress sensors ([buildExternalSpoolPattern] and the three
    others), for a prefix of word characters: the pattern matches an
    identifier, capturing [name] and the disambiguator [version], exactly
    when [name] is in the table of the entity type and the identifier is
    [sensor.<prefix>_<name>], optionally followed by [_] and a numeral. *)
Theorem named_patterns_spec entityType prefix entityId name version :
  literal_source prefix = true →
  pattern_for entityType prefix entityId = Some (name, version) ↔
  name ∈ names_of entityType ∧ numbered version ∧
  entityId = "sensor." +:+ prefix +:+ "_" +:+ name +:+ disambiguator version.
Proof.
  intros _. destruct (pattern_for_names entityType) as [-> Hend].
  rewrite named_sensor_pattern_spec by done. by rewrite !app_string_assoc.
Qed.

Lemma named_patterns_spec_witness :
  pattern_for ExternalSpool "x1c_00m09d462101575"
    "sensor.x1c_00m09d462101575_externe_spule_2"
  = Some ("externe_spule", Some "2") ↔
  "externe_spule" ∈ names_of ExternalSpool ∧ numbered (Some "2") ∧
  "sensor.x1c_00m09d462101575_externe_spule_2"
  = "sensor." +:+ "x1c_00m09d462101575" +:+ "_" +:+ "externe_spule" +:+
    disambiguator (Some "2").
Proof.
  apply (named_patterns_spec ExternalSpool "x1c_00m09d462101575").
  reflexivity.
Defined.

(** X9. The tables agree. Whatever the printer's entity identifier, the name
    [getLocalizedEntityName] gives for an entity type is one the pattern of
    that type knows: for a prefix of word characters, the pattern matches
    [sensor.<prefix>_<name>] and captures that name, with no disambiguator. *)
Theorem localized_name_matches printerEntityId entityType prefix :
  literal_source prefix = true →
  pattern_for entityType prefix
    ("sensor." +:+ prefix +:+ "_" +:+
     getLocalizedEntityName printerEntityId entityType)
  = Some (getLocalizedEntityName printerEntityId entityType, None).
Proof.
  intros _. destruct (pattern_for_names entityType) as [-> Hend].
  apply named_sensor_pattern_spec; [done|]. split; [|split; [done|]].
  - unfold getLocalizedEntityName.
    destruct (detectLanguageFromEntity printerEntityId), entityType;
      cbn; repeat constructor.
  - apply chars_inj. by rewrite !chars_app, app_nil_r, <- !app_assoc.
Qed.

Lemma localized_name_matches_witness :
  pattern_for PrintWeight "bambulab_p1s"
    ("sensor." +:+ "bambulab_p1s" +:+ "_" +:+
     getLocalizedEntityName "sensor.bambulab_p1s_druckstatus" PrintWeight)
  = Some (getLocalizedEntityName "sensor.bambulab_p1s_druckstatus" PrintWeight,
          None).
Proof.
  apply (localized_name_matches "sensor.bambulab_p1s_druckstatus" PrintWeight
           "bambulab_p1s").
  reflexivity.
Defined.

(** X10. From a printer to its sensors. For the print-status identifier
    [sensor.<p>_<suffix>] (or [sensor.<p>_<suffix>_<n>]) of a printer, with
    [p] free of line terminators and [suffix] the suffix of language [lang]:
    the identifier built from [extractPrinterPrefix] and
    [getLocalizedEntityName] is [sensor.<p>_<name>], with [name] the name
    [getLocalizedEntities] has for [lang] and the entity type. *)
Theorem localized_entity_of_printer p suffix lang version entityType :
  single_line (chars p) = true →
  (suffix, lang) ∈ PRINT_STATUS_TO_LANGUAGE → numbered version →
  let printerEntityId :=
    "sensor." +:+ p +:+ "_" +:+ suffix +:+ disambiguator version in
  "sensor." +:+ extractPrinterPrefix printerEntityId +:+ "_" +:+
    getLocalizedEntityName printerEntityId entityType
  = "sensor." +:+ p +:+ "_" +:+
    entity_name (getLocalizedEntities lang) entityType.
Proof.
  intros Hsl Hin Hv printerEntityId. subst printerEntityId.
  rewrite (extractPrinterPrefix_chars _ (chars p) suffix version);
    [|done|by eapply table_suffixes|done|apply chars_status_id].
  rewrite string_of_list_ascii_of_string.
  unfold getLocalizedEntityName, getLocalizedEntities.
  rewrite (detect_found _ suffix lang); [done..|].
  apply has_status_suffix_numbered. by exists ("sensor." +:+ p), version.
Qed.

Lemma localized_entity_of_printer_witness :
  let printerEntityId :=
    "sensor." +:+ "bambulab_p1s" +:+ "_" +:+ "printstatus" +:+
    disambiguator (Some "3") in
  "sensor." +:+ extractPrinterPrefix printerEntityId +:+ "_" +:+
    getLocalizedEntityName printerEntityId CurrentStage
  = "sensor." +:+ "bambulab_p1s" +:+ "_" +:+
    entity_name (getLocalizedEntities nl) CurrentStage.
Proof.
  apply (localized_entity_of_printer "bambulab_p1s" "printstatus" nl
           (Some "3") CurrentStage).
  - reflexivity.
  - unfold PRINT_STATUS_TO_LANGUAGE. repeat constructor.
  - split; [discriminate|reflexivity].
Defined.

(** X11. The pattern of the AMS humidity sensors, for a prefix of word
    characters: it matches an identifier, capturing the AMS number and the
    disambiguator, exactly when the identifier is
    [sensor.<prefix>_ams_<number>_<name>] with [number] a numeral and [name]
    a name of the humidity table, optionally followed by [_] and a numeral. *)
Theorem buildAmsPattern_spec prefix entityId number version :
  literal_source prefix = true →
  buildAmsPattern prefix entityId = Some (number, version) ↔
  numeral number ∧ numbered version ∧
  ∃ name, name ∈ AMS_HUMIDITY_NAMES ∧
    entityId = "sensor." +:+ prefix +:+ "_ams_" +:+ number +:+ "_" +:+
               name +:+ disambiguator version.
Proof.
  intros _. rewrite buildAmsPattern_chars.
  split; intros (Hn & Hv & name & Hin & ->);
    (split; [done|split; [done|]]; exists name; split; [done|]);
    apply chars_inj; by rewrite !chars_app, <- ?app_assoc.
Qed.

Lemma buildAmsPattern_spec_witness :
  buildAmsPattern "x1c_00m09d462101575"
    "sensor.x1c_00m09d462101575_ams_2_luftfeuchtigkeit"
  = Some ("2", None) ↔
  numeral "2" ∧ numbered None ∧
  ∃ name, name ∈ AMS_HUMIDITY_NAMES ∧
    "sensor.x1c_00m09d462101575_ams_2_luftfeuchtigkeit"
    = "sensor." +:+ "x1c_00m09d462101575" +:+ "_ams_" +:+ "2" +:+ "_" +:+
      name +:+ disambiguator None.
Proof.
  apply (buildAmsPattern_spec "x1c_00m09d462101575"). reflexivity.
Defined.

(** X12. The AMS number can be spliced into the tray pattern. The number the
    AMS pattern captures is made of digits: given as [amsNumber] to
    [buildTrayPattern], it stands for itself in the source of the regular
    expression. *)
Theorem buildAmsPattern_number_literal prefix entityId number version :
  literal_source prefix = true →
  buildAmsPattern prefix entityId = Some (number, version) →
  literal_source number = true.
Proof.
  intros _ ((_ & Hds) & _)%buildAmsPattern_chars. unfold literal_source.
  rewrite forallb_forall in Hds. apply forallb_forall. intros c Hc.
  unfold is_word. by rewrite (Hds c Hc).
Qed.

Lemma buildAmsPattern_number_literal_witness : literal_source "12" = true.
Proof.
  apply (buildAmsPattern_number_literal "x1c_00m09d462101575"
           "sensor.x1c_00m09d462101575_ams_12_humidity_2" "12" (Some "2")).
  - reflexivity.
  - vm_compute. reflexivity.
Defined.

(** X13. The pattern of the tray sensors, for a prefix and an AMS number of
    word characters and a tray number that is a safe integer: it matches an
    identifier, capturing the disambiguator, exactly when the identifier is
    [sensor.<prefix>_ams_<amsNumber>_<name>_<trayNum>] with [name] a name of
    the tray table and [trayNum] in decimal, optionally followed by [_] and
    a numeral. *)
Theorem buildTrayPattern_spec prefix amsNumber (trayNum : N) entityId version :
  literal_source prefix = true → literal_source amsNumber = true →
  safe_integer trayNum →
  buildTrayPattern prefix amsNumber trayNum entityId = Some version ↔
  numbered version ∧
  ∃ name, name ∈ TRAY_NAMES ∧
    entityId = "sensor." +:+ prefix +:+ "_ams_" +:+ amsNumber +:+ "_" +:+
               name +:+ "_" +:+ pretty trayNum +:+ disambiguator version.
Proof.
  intros _ _ _. rewrite buildTrayPattern_chars.
  split; intros (Hv & name & Hin & ->);
    (split; [done|]; exists name; split; [done|]);
    apply chars_inj; by rewrite !chars_app, <- ?app_assoc.
Qed.

Lemma buildTrayPattern_spec_witness :
  buildTrayPattern "x1c_00m09d462101575" "1" 3
    "sensor.x1c_00m09d462101575_ams_1_slot_3_2" = Some (Some "2") ↔
  numbered (Some "2") ∧
  ∃ name, name ∈ TRAY_NAMES ∧
    "sensor.x1c_00m09d462101575_ams_1_slot_3_2"
    = "sensor." +:+ "x1c_00m09d462101575" +:+ "_ams_" +:+ "1" +:+ "_" +:+
      name +:+ "_" +:+ pretty 3%N +:+ disambiguator (Some "2").
Proof.
  apply (buildTrayPattern_spec "x1c_00m09d462101575" "1" 3).
  - reflexivity.
  - reflexivity.
  - unfold safe_integer. lia.
Defined.

(** X14. A sensor is the sensor of one tray only: an identifier that the
    tray pattern of one tray number matches is matched by the tray pattern
    of no other tray number (of the same printer and AMS unit). *)
Theorem buildTrayPattern_one_tray prefix amsNumber (trayNum trayNum' : N)
    entityId version :
  literal_source prefix = true → literal_source amsNumber = true →
  safe_integer trayNum → safe_integer trayNum' →
  trayNum ≠ trayNum' →
  buildTrayPattern prefix amsNumber trayNum entityId = Some version →
  buildTrayPattern prefix amsNumber trayNum' entityId = None.
Proof.
  intros _ _ _ _ Hne (Hv & name & Hin & E)%buildTrayPattern_chars.
  destruct (buildTrayPattern _ _ trayNum' _) as [version'|] eqn:E'; [|done].
  apply buildTrayPattern_chars in E' as (Hv' & name' & Hin' & E').
  rewrite E in E'. apply (f_equal chars) in E'.
  rewrite !(chars_app ("sensor." +:+ prefix +:+ "_ams_" +:+ amsNumber +:+ "_"))
    in E'.
  apply app_inv_head in E'.
  rewrite (chars_app (name +:+ _)), (chars_app (name' +:+ _)) in E'.
  by apply tray_name_unique in E' as (_ & ? & _).
Qed.

Lemma buildTrayPattern_one_tray_witness :
  buildTrayPattern "x1c_00m09d462101575" "1" 2
    "sensor.x1c_00m09d462101575_ams_1_tray_1_2" = None.
Proof.
  apply (buildTrayPattern_one_tray "x1c_00m09d462101575" "1" 1 2
           "sensor.x1c_00m09d462101575_ams_1_tray_1_2" (Some "2")).
  - reflexivity.
  - reflexivity.
  - unfold safe_integer. lia.
  - unfold safe_integer. lia.
  - discriminate.
  - vm_compute. reflexivity.
Defined.

Section ams_or_tray.
Implicit Types (name : string) (k : list ascii).

(** No humidity name ends as a tray name does. *)
Lemma humidity_not_tray name name' k k' :
  name ∈ AMS_HUMIDITY_NAMES → name' ∈ TRAY_NAMES →
  k ++ chars name = k' ++ chars name' → False.
Proof.
  intros Hin Hin' E.
  assert (chars name `suffix_of` chars name' ∨
          chars name' `suffix_of` chars name) as Hcmp.
  { apply (suffix_weak_total _ _ (k ++ chars name)); [by exists k|].
    exists k'. done. }
  revert Hin Hin' Hcmp. clear E. unfold AMS_HUMIDITY_NAMES, TRAY_NAMES.
  rewrite !elem_of_cons, !elem_of_nil.
  intros [->|[->|[->|[->|[->|[]]]]]] [->|[->|[->|[]]]];
    intros [H|H]; apply (bool_decide_eq_true_2 _) in H; vm_compute in H;
    discriminate H.
Qed.

Lemma humidity_names_lettered name :
  name ∈ AMS_HUMIDITY_NAMES → ends_nondigit (chars name).
Proof.
  intros Hin. apply ends_nondigitb_spec. revert Hin.
  unfold AMS_HUMIDITY_NAMES. rewrite !elem_of_cons, elem_of_nil.
  by intros [->|[->|[->|[->|[->|[]]]]]].
Qed.
End ams_or_tray.

(** X15. No sensor is both an AMS humidity sensor and a tray sensor: an
    identifier that the AMS pattern of some printer matches is matched by no
    tray pattern, whatever the printer, the AMS number and the tray number. *)
Theorem ams_pattern_excludes_tray prefix prefix' amsNumber (trayNum : N)
    entityId number version :
  literal_source prefix = true → literal_source prefix' = true →
  literal_source amsNumber = true → safe_integer trayNum →
  buildAmsPattern prefix entityId = Some (number, version) →
  buildTrayPattern prefix' amsNumber trayNum entityId = None.
Proof.
  intros _ _ _ _ (_ & Hv & name & Hin & E)%buildAmsPattern_chars.
  destruct (buildTrayPattern _ _ _ _) as [version'|] eqn:E'; [|done].
  apply buildTrayPattern_chars in E' as (Hv' & name' & Hin' & E').
  rewrite E in E'. apply (f_equal chars) in E'. exfalso. clear E. revert E'.
  destruct (numeral_chars _ (pretty_N_numeral trayNum)) as [Hne Hds].
  pose proof (humidity_names_lettered name Hin) as Hletter.
  set (a := chars (("sensor." +:+ prefix +:+ "_ams_") +:+ number +:+ "_")).
  set (b := chars ("sensor." +:+ prefix' +:+ "_ams_" +:+ amsNumber +:+ "_")).
  assert (∀ v, chars ((("sensor." +:+ prefix +:+ "_ams_") +:+ number +:+ "_"
                       +:+ name +:+ disambiguator v))
               = (a ++ chars name) ++ chars (disambiguator v)) as ->.
  { intros. subst a. by rewrite !chars_app, <- ?app_assoc. }
  assert (∀ v, chars (("sensor." +:+ prefix' +:+ "_ams_" +:+ amsNumber +:+ "_")
                      +:+ (name' +:+ "_" +:+ pretty trayNum) +:+ disambiguator v)
               = ((b ++ chars name') ++ "_"%char :: chars (pretty trayNum)) ++
                 chars (disambiguator v)) as ->.
  { intros. subst b. by rewrite !chars_app, <- ?app_assoc. }
  assert (ends_nondigit (a ++ chars name)) as Ha by by apply ends_nondigit_app.
  assert (¬ ends_nondigit ((b ++ chars name') ++ "_"%char ::
                           chars (pretty trayNum))) as Hb.
  { replace ((b ++ chars name') ++ "_"%char :: chars (pretty trayNum))
      with (((b ++ chars name') ++ ["_"%char]) ++ chars (pretty trayNum))
      by by rewrite <- !app_assoc.
    by apply ends_nondigit_digits. }
  destruct version as [d|], version' as [d'|];
    rewrite ?chars_disambiguator; cbn [disambiguator chars];
    rewrite ?app_nil_r.
  - apply numeral_chars in Hv as [_ Hd], Hv' as [_ Hd'].
    intros (E & _)%digits_run_unique; [|done..]. apply Hb. by rewrite <- E.
  - apply numeral_chars in Hv as [_ Hd].
    intros (E & _)%digits_run_unique; [|done..].
    by apply humidity_not_tray in E.
  - apply numeral_chars in Hv' as [Hne' Hd']. intros E.
    destruct (ends_nondigit_digits
                (((b ++ chars name') ++ "_"%char :: chars (pretty trayNum)) ++
                 ["_"%char]) (chars d')); [done..|].
    rewrite <- app_assoc. cbn [app]. by rewrite <- E.
  - intros E. apply Hb. by rewrite <- E.
Qed.

Lemma ams_pattern_excludes_tray_witness :
  buildTrayPattern "x1c_00m09d462101575" "1" 2
    "sensor.x1c_00m09d462101575_ams_1_humidity_2" = None.
Proof.
  apply (ams_pattern_excludes_tray "x1c_00m09d462101575"
           "x1c_00m09d462101575" "1" 2
           "sensor.x1c_00m09d462101575_ams_1_humidity_2" "1" (Some "2")).
  - reflexivity.
  - reflexivity.
  - reflexivity.
  - unfold safe_integer. lia.
  - vm_compute. reflexivity.
Defined.

(** *** Friendly names *)

Section friendly_names.
Implicit Types (name base suffix written fallback s : string)
  (t u v k r pat : list ascii) (c prev : ascii).

Lemma strip_suffixes_prefix suffixes r : strip_suffixes suffixes r `prefix_of` r.
Proof.
  revert r. induction suffixes as [|s suffixes IH]; intros r; [done|].
  cbn [strip_suffixes fold_left]. etrans; [apply IH|apply replace_to_end_prefix].
Qed.

Lemma strip_suffixes_no_match suffixes r :
  (∀ s, s ∈ suffixes → search (literal_i (chars (" " +:+ s))) r = false) →
  strip_suffixes suffixes r = r.
Proof.
  induction suffixes as [|s suffixes IH]; intros Hnone; [done|].
  cbn [strip_suffixes fold_left].
  rewrite replace_to_end_no_match by (apply Hnone; left).
  apply IH. intros s' Hs'. apply Hnone. by right.
Qed.

Lemma canonical_length prev t : length (canonical prev t) = length t.
Proof.
  revert prev. induction t as [|c t IH]; intros prev; [done|].
  cbn. by rewrite IH.
Qed.

Lemma upper_form_space prev c : upper_form prev c = " "%char ↔ c = " "%char.
Proof.
  unfold upper_form. destruct (bool_decide (prev = "195"%char));
    destruct c as [[] [] [] [] [] [] [] []]; vm_compute; split; congruence.
Qed.

Lemma canonical_space prev u :
  canonical prev (" "%char :: u) = " "%char :: canonical " "%char u.
Proof. cbn [canonical]. f_equal. by apply upper_form_space. Qed.

Lemma canonical_app_space prev k u :
  canonical prev (k ++ " "%char :: u)
  = canonical prev k ++ canonical " "%char (" "%char :: u).
Proof.
  revert prev. induction k as [|c k IH]; intros prev.
  - cbn [app]. by rewrite !canonical_space.
  - cbn [app canonical]. by rewrite IH.
Qed.

Lemma literal_i_length pat v :
  literal_i pat v = true → length v = length pat.
Proof.
  unfold literal_i. intros H%bool_decide_eq_true.
  by rewrite <- (canonical_length " "%char v), H, canonical_length.
Qed.

Lemma literal_i_space suffix v :
  literal_i (chars (" " +:+ suffix)) v = true → ∃ u, v = " "%char :: u.
Proof.
  unfold literal_i. intros H%bool_decide_eq_true. rewrite chars_app in H.
  destruct v as [|c v]; [done|]. cbn in H. injection H as Hc%upper_form_space _.
  subst c. by eexists.
Qed.

(** A pattern of fixed length that matches the end of the input matches
    nowhere before. *)
Lemma replace_to_end_fixed (m : list ascii → bool) n k v :
  (∀ t, m t = true → length t = n) → m v = true →
  replace_to_end m (k ++ v) = k.
Proof.
  intros Hlen Hv. induction k as [|c k IH].
  - by apply replace_to_end_match.
  - cbn [app replace_to_end]. destruct (m (c :: k ++ v)) eqn:E.
    + apply Hlen in E. apply Hlen in Hv. cbn in E.
      rewrite length_app in E. lia.
    + by rewrite IH.
Qed.

(** No suffix of the table ends as another one does, whatever the case. *)
Lemma friendly_suffixes_exclusive suffix suffix' k k' :
  suffix ∈ FRIENDLY_NAME_SUFFIXES → suffix' ∈ FRIENDLY_NAME_SUFFIXES →
  k ++ canonical " "%char (chars (" " +:+ suffix))
    = k' ++ canonical " "%char (chars (" " +:+ suffix')) →
  suffix = suffix'.
Proof.
  intros Hs Hs' E.
  assert (canonical " "%char (chars (" " +:+ suffix))
            `suffix_of` canonical " "%char (chars (" " +:+ suffix')) ∨
          canonical " "%char (chars (" " +:+ suffix'))
            `suffix_of` canonical " "%char (chars (" " +:+ suffix))) as Hcmp.
  { apply (suffix_weak_total _ _ (k ++ canonical " "%char (chars (" " +:+ suffix))));
      [by exists k|]. exists k'. done. }
  revert Hs Hs' Hcmp. clear E. unfold FRIENDLY_NAME_SUFFIXES.
  rewrite !elem_of_cons, !elem_of_nil.
  intros [->|[->|[->|[->|[->|[]]]]]] [->|[->|[->|[->|[->|[]]]]]];
    try reflexivity;
    intros [H|H]; apply (bool_decide_eq_true_2 _) in H; vm_compute in H;
    discriminate H.
Qed.

(** In a name that ends in a space and one suffix, the pattern of another
    suffix matches nowhere. *)
Lemma other_suffix_no_match suffix suffix' written k :
  suffix ∈ FRIENDLY_NAME_SUFFIXES → suffix' ∈ FRIENDLY_NAME_SUFFIXES →
  same_letters written suffix → suffix' ≠ suffix →
  search (literal_i (chars (" " +:+ suffix')))
         (k ++ " "%char :: chars written) = false.
Proof.
  intros Hs Hs' Hw Hne. destruct (search _ _) eqn:E; [|done].
  apply search_spec in E as (k' & v & E & Hv).
  destruct (literal_i_space _ _ Hv) as [u ->].
  apply bool_decide_eq_true in Hv.
  apply (f_equal (canonical " "%char)) in E.
  rewrite !canonical_app_space, Hv, canonical_space, Hw in E.
  destruct Hne. symmetry. eapply friendly_suffixes_exclusive; [done..|].
  rewrite !chars_app. exact E.
Qed.

Lemma strip_suffixes_strips suffixes base suffix written :
  suffixes ⊆ FRIENDLY_NAME_SUFFIXES → suffix ∈ suffixes →
  same_letters written suffix →
  (∀ s, s ∈ suffixes → ends_like base s = false) →
  strip_suffixes suffixes (chars base ++ " "%char :: chars written) = chars base.
Proof.
  intros Hsub Hin Hw Hbase.
  induction suffixes as [|s suffixes IH]; [by apply elem_of_nil in Hin|].
  cbn [strip_suffixes fold_left]. destruct (decide (s = suffix)) as [->|Hne].
  - rewrite (replace_to_end_fixed _ (length (chars (" " +:+ suffix)))).
    + apply strip_suffixes_no_match. intros s Hs. apply Hbase. by right.
    + apply literal_i_length.
    + unfold literal_i. apply bool_decide_eq_true.
      rewrite chars_app. cbn [chars app canonical]. by rewrite Hw.
  - rewrite replace_to_end_no_match.
    + apply IH.
      * intros x Hx. apply Hsub. by right.
      * by apply elem_of_cons in Hin as [->|].
      * intros x Hx. apply Hbase. by right.
    + apply (other_suffix_no_match suffix); try done.
      * by apply Hsub.
      * apply Hsub. by left.
Qed.
End friendly_names.

(** X16. [cleanFriendlyName] gives the fallback, or a part of the friendly
    name that is not empty and with which the name starts: it only cuts at
    the end, and never gives the empty string unless the fallback is empty. *)
Theorem cleanFriendlyName_result friendlyName fallback :
  cleanFriendlyName friendlyName fallback = fallback ∨
  ∃ name dropped,
    friendlyName = Some name ∧
    cleanFriendlyName friendlyName fallback ≠ "" ∧
    name = cleanFriendlyName friendlyName fallback +:+ dropped.
Proof.
  unfold cleanFriendlyName. destruct friendlyName as [name|]; [|by left].
  case_bool_decide; [by left|].
  destruct (strip_suffixes_prefix FRIENDLY_NAME_SUFFIXES (chars name))
    as [t Ht].
  destruct (strip_suffixes _ _) as [|c r]; [by left|]. right.
  exists name, (text t). split; [done|]. split; [done|]. apply chars_inj.
  by rewrite chars_app, !list_ascii_of_string_of_list_ascii.
Qed.

(** X17. A friendly name that is [base], a space and a suffix of the table,
    written in whatever case, is cleaned to [base] when [base] itself ends
    in no suffix of the table; when [base] is empty the fallback is given. *)
Theorem cleanFriendlyName_strips base suffix written fallback :
  suffix ∈ FRIENDLY_NAME_SUFFIXES → same_letters written suffix →
  (∀ s, s ∈ FRIENDLY_NAME_SUFFIXES → ends_like base s = false) →
  cleanFriendlyName (Some (base +:+ " " +:+ written)) fallback
  = if decide (base = "") then fallback else base.
Proof.
  intros Hs Hw Hbase. unfold cleanFriendlyName.
  rewrite bool_decide_eq_false_2.
  2: { intros E%(f_equal chars). rewrite !chars_app in E.
       by destruct (chars base). }
  rewrite !chars_app. cbn [chars app].
  rewrite (strip_suffixes_strips _ base suffix) by done.
  destruct base; [done|]. rewrite decide_False by done.
  apply (string_of_list_ascii_of_string (String _ _)).
Qed.

Lemma cleanFriendlyName_strips_witness :
  cleanFriendlyName
    (Some ("Bambu Lab P1S" +:+ " " +:+ "estado de la IMPRESIÓN")) "Printer"
  = (if decide ("Bambu Lab P1S" = "") then "Printer" else "Bambu Lab P1S").
Proof.
  apply (cleanFriendlyName_strips "Bambu Lab P1S" "Estado de la Impresión").
  - unfold FRIENDLY_NAME_SUFFIXES. repeat constructor.
  - reflexivity.
  - unfold FRIENDLY_NAME_SUFFIXES. intros s.
    rewrite !elem_of_cons, elem_of_nil.
    intros [->|[->|[->|[->|[->|[]]]]]]; reflexivity.
Defined.

(* ================================================================== *)
(** ** Properties of the webhook handler *)
(* ================================================================== *)

Section webhook.
Implicit Types (env : Env) (w : World) (body : Body) (s : Spool)
  (spools : list Spool) (x : float).

(** [Array.prototype.find] returns the first element that passes. *)
Lemma find_carries key value spools :
  find (λ s, bool_decide (extra_field s key = Some (JSON_stringify value))) spools
  = head (filter (carries key value) spools).
Proof.
  induction spools as [|s spools IH]; [done|]. cbn [find].
  rewrite filter_cons. destruct (decide (carries key value s)) as [H|H].
  - by rewrite bool_decide_eq_true_2.
  - by rewrite bool_decide_eq_false_2.
Qed.

(** A positive number is truthy and not [<= 0]. *)
Lemma positive_number x :
  (0 <? x)%float = true →
  truthy_number x = true ∧ (x <=? 0)%float = false.
Proof.
  unfold truthy_number, PrimFloat.is_zero, PrimFloat.is_nan.
  rewrite FloatAxioms.ltb_spec, FloatAxioms.leb_spec, !FloatAxioms.eqb_spec.
  replace (Prim2SF 0) with (S754_zero false) by reflexivity.
  replace (Prim2SF zero) with (S754_zero false) by reflexivity.
  unfold SFltb, SFleb, SFeqb.
  destruct (Prim2SF x) as [[]|[]| |[] m e]; cbn; try discriminate; intros _;
    try done.
  by rewrite Z.compare_refl, Pos.compare_cont_refl.
Qed.

End webhook.



(** After the body is parsed the receipt is logged and the event
    dispatched. *)
Lemma POST_try_parsed env w body :
  request_json env = Ok body →
  POST_try env w =
    match spoolmanConnection env with
    | None => mret (json_response (Ignored "spoolman not configured"))
    | Some conn =>
        if bool_decide (event body = Some "spool_usage")
        then spool_usage env (client conn) body
        else if bool_decide (event body = Some "tray_change")
        then tray_change (client conn) body
        else mret (json_response (Ignored "unknown event type"))
    end (logged w [webhook_record body]).
Proof.
  intros Hbody. unfold POST_try, mbind, M_bind, await, activityLog_create.
  by rewrite Hbody.
Qed.

(** The guards of [spool_usage] pass for a positive weight and a tray
    identifier that is provided. *)
Lemma spool_usage_run env cl w body x tray :
  used_weight body = Some x →
  truthy_number x = true → (x <=? 0)%float = false →
  active_tray_id body = Some tray → tray ≠ "" →
  spool_usage env cl body w =
    match getSpools_result cl with
    | Throw e =>
        (Throw e, {| activityLog := activityLog w;
                     calls := calls w ++ [GetSpools];
                     emitted := emitted w |})
    | Ok spools =>
        match head (filter (carries "active_tray" tray) spools) with
        | None =>
            (Ok (json_response (NoMatch
                   ("No spool assigned to tray " +:+ tray +:+
                    ". Assign a spool in SpoolmanSync first."))),
             {| activityLog := activityLog w;
                calls := calls w ++ [GetSpools];
                emitted := emitted w |})
        | Some s =>
            match useWeight_result cl (id s) x with
            | Throw e =>
                (Throw e,
                 {| activityLog := activityLog w;
                    calls := calls w ++ [GetSpools; UseWeight (id s) x];
                    emitted := emitted w |})
            | Ok _ =>
                (Ok (json_response
                       (UsageSuccess (id s) x (remaining_weight s - x)%float)),
                 {| activityLog := activityLog w ++ [usage_record s x tray];
                    calls := calls w ++ [GetSpools; UseWeight (id s) x];
                    emitted := emitted w ++ [usage_event env s x tray] |})
            end
        end
    end.
Proof.
  intros Hx Htruthy Hle Htray Hne.
  unfold spool_usage. rewrite Hx, Htruthy, Hle, Htray. cbn [negb orb].
  unfold truthy_string. rewrite (bool_decide_eq_false_2 _ Hne). cbn [negb].
  unfold getSpools, useWeight, call, emit, activityLog_create, await,
    mbind, mret, M_bind, M_ret. cbn.
  destruct (getSpools_result cl) as [spools|e]; [|done].
  rewrite find_carries. destruct (head _) as [s|]; [|done]. cbn.
  destruct (useWeight_result cl (id s) x); cbn; rewrite <- ?app_assoc; done.
Qed.

(** C2.  A [spool_usage] event with a positive [used_weight] and an
    [active_tray_id] that is present (provided, and not empty), where the
    snapshot the connected inventory service returns has a spool [s] whose
    [extra.active_tray] is the JSON-encoded tray identifier ([s] is the first
    such spool of the snapshot, the only one when the tray is claimed once):
    exactly one [useWeight (id s) used_weight] call is made and, the call
    returning, the response reports
    [newRemainingWeight = remaining_weight s - used_weight], computed from
    the snapshot, and exactly one [usage] event is broadcast, with
    [deducted = used_weight] and [newWeight] the same difference. *)
Theorem spool_usage_deducts env w body conn spools x tray s others :
  request_json env = Ok body →
  event body = Some "spool_usage" →
  spoolmanConnection env = Some conn →
  getSpools_result (client conn) = Ok spools →
  used_weight body = Some x → (0 <? x)%float = true →
  active_tray_id body = Some tray → tray ≠ "" →
  filter (carries "active_tray" tray) spools = s :: others →
  useWeight_result (client conn) (id s) x = Ok () →
  ∃ w', POST env w =
          (Ok (json_response
                 (UsageSuccess (id s) x (remaining_weight s - x)%float)), w') ∧
        calls w' = calls w ++ [GetSpools; UseWeight (id s) x] ∧
        emitted w' = emitted w ++ [usage_event env s x tray] ∧
        deducted (usage_event env s x tray) = x ∧
        newWeight (usage_event env s x tray) = (remaining_weight s - x)%float.
Proof.
  intros Hbody Hevent Hconn Hspools Hx Hpos Htray Hne Hmatch Huse.
  unfold POST, try_catch. rewrite (POST_try_parsed env w body Hbody).
  rewrite Hconn, Hevent, bool_decide_eq_true_2 by done.
  apply positive_number in Hpos as [Htruthy Hle].
  rewrite (spool_usage_run env _ _ body x tray) by done.
  rewrite Hspools, Hmatch. cbn [head]. rewrite Huse. by eexists.
Qed.


Lemma tray_change_run cl w body :
  tray_change cl body w =
    match getSpools_result cl with
    | Throw e =>
        (Throw e, {| activityLog := activityLog w;
                     calls := calls w ++ [GetSpools];
                     emitted := emitted w |})
    | Ok spools =>
        match usable_tag (tag_uid body)
              ≫= λ tag, head (filter (carries "tag_uid" tag) spools) with
        | None =>
            (Ok no_auto_match,
             {| activityLog := activityLog w;
                calls := calls w ++ [GetSpools];
                emitted := emitted w |})
        | Some s =>
            let tray := tray_entity_id body in
            match assignSpoolToTray_result cl (id s) tray with
            | Throw e =>
                (Throw e,
                 {| activityLog := activityLog w;
                    calls := calls w ++ [GetSpools; AssignSpoolToTray (id s) tray];
                    emitted := emitted w |})
            | Ok _ =>
                (Ok (json_response (AssignSuccess s "tag_uid")),
                 {| activityLog := activityLog w ++ [assign_record s tray];
                    calls := calls w ++ [GetSpools; AssignSpoolToTray (id s) tray];
                    emitted := emitted w |})
            end
        end
    end.
Proof.
  unfold tray_change, getSpools, assignSpoolToTray, call, activityLog_create,
    await, mbind, mret, M_bind, M_ret. cbn.
  destruct (getSpools_result cl) as [spools|e]; [|done].
  destruct (tag_uid body) as [tag|]; [|done]. cbn [usable_tag].
  unfold truthy_string. destruct (decide (tag = "" ∨ tag = "unknown")) as [H|H].
  - destruct H as [->| ->]; done.
  - rewrite !(bool_decide_eq_false_2 (tag = "")) by tauto.
    rewrite (bool_decide_eq_false_2 (tag = "unknown")) by tauto.
    cbn [negb andb option_bind]. rewrite find_carries.
    destruct (head _) as [s|]; [|done]. cbn.
    destruct (assignSpoolToTray_result _ _ _); cbn; rewrite <- ?app_assoc; done.
Qed.



(** Either [spool_usage] rejects the event before any effect, or the event
    passes both guards. *)
Lemma spool_usage_guarded env cl body w :
  (∃ reason, spool_usage env cl body w = (Ok (json_response (Ignored reason)), w)) ∨
  (∃ x tray, used_weight body = Some x ∧ truthy_number x = true ∧
             (x <=? 0)%float = false ∧
             active_tray_id body = Some tray ∧ tray ≠ "").
Proof.
  unfold spool_usage. destruct (used_weight body) as [x|]; [|by left; eexists].
  destruct (truthy_number x) eqn:Htruthy; [|by left; eexists].
  destruct (x <=? 0)%float eqn:Hle; [by left; eexists|]. cbn [negb orb].
  destruct (active_tray_id body) as [tray|]; [|by left; eexists].
  unfold truthy_string. case_bool_decide as Hne; [by left; eexists|].
  right. by exists x, tray.
Qed.

(** The handler never lets an exception out: every delivery gets a
    response. *)
Lemma POST_responds env w : ∃ resp w', POST env w = (Ok resp, w').
Proof.
  unfold POST, try_catch. destruct (POST_try env w) as [[resp|e] w'].
  - by eexists _, _.
  - unfold POST_catch, activityLog_create, mbind, mret, M_bind, M_ret.
    by eexists _, _.
Qed.




(** A body that does not parse leaves the [try] block at once. *)
Lemma parse_failure_throws env w e :
  request_json env = Throw e → POST_try env w = (Throw e, w).
Proof.
  intros Hbody. unfold POST_try, mbind, M_bind, await. by rewrite Hbody.
Qed.







Lemma spool_usage_deducts_witness :
  ∃ w',
    POST (serving (usage_body 50 "sensor.x1c_ams_1_tray_1")
                  [spool_abs; spool_pla]) fresh
    = (Ok (json_response (UsageSuccess 1 50 750)), w') ∧
    calls w' = [GetSpools; UseWeight 1 50] ∧
    emitted w' =
      [usage_event (serving (usage_body 50 "sensor.x1c_ams_1_tray_1")
                            [spool_abs; spool_pla])
                   spool_pla 50 "sensor.x1c_ams_1_tray_1"] ∧
    deducted (usage_event (serving (usage_body 50 "sensor.x1c_ams_1_tray_1")
                                   [spool_abs; spool_pla])
                          spool_pla 50 "sensor.x1c_ams_1_tray_1") = 50%float ∧
    newWeight (usage_event (serving (usage_body 50 "sensor.x1c_ams_1_tray_1")
                                    [spool_abs; spool_pla])
                           spool_pla 50 "sensor.x1c_ams_1_tray_1") = 750%float.
Proof.
  apply (spool_usage_deducts
           (serving (usage_body 50 "sensor.x1c_ams_1_tray_1")
                    [spool_abs; spool_pla])
           fresh (usage_body 50 "sensor.x1c_ams_1_tray_1")
           (answering [spool_abs; spool_pla]) [spool_abs; spool_pla]
           50%float "sensor.x1c_ams_1_tray_1" spool_pla []).
  - reflexivity.
  - reflexivity.
  - reflexivity.
  - reflexivity.
  - reflexivity.
  - reflexivity.
  - reflexivity.
  - discriminate.
  - vm_compute. reflexivity.
  - reflexivity.
Defined.










(** *** The inventory protocol, the broadcast and the matching *)

Section protocol.
Implicit Types (env : Env) (w : World) (body : Body) (s : Spool) (x : float).

(** A number passes the weight guard exactly when it is positive. *)
Lemma weight_guard x :
  negb (truthy_number x) || (x <=? 0)%float = negb (0 <? x)%float.
Proof.
  unfold truthy_number, PrimFloat.is_zero, PrimFloat.is_nan.
  rewrite FloatAxioms.ltb_spec, FloatAxioms.leb_spec, !FloatAxioms.eqb_spec.
  replace (Prim2SF 0) with (S754_zero false) by reflexivity.
  replace (Prim2SF zero) with (S754_zero false) by reflexivity.
  unfold SFltb, SFleb, SFeqb.
  destruct (Prim2SF x) as [[]|[]| |[] m e]; cbn; try done.
  - by rewrite orb_true_r.
  - by rewrite Z.compare_refl, Pos.compare_cont_refl.
Qed.

(** The two guards of [spool_usage], in their order. *)
Lemma spool_usage_refused env cl body w :
  (¬ positive_weight body ∧
   spool_usage env cl body w
   = (Ok (json_response (Ignored "no weight to deduct")), w)) ∨
  (positive_weight body ∧ ¬ tray_given body ∧
   spool_usage env cl body w
   = (Ok (json_response (Ignored "no active_tray_id provided")), w)) ∨
  (∃ x tray, used_weight body = Some x ∧ (0 <? x)%float = true ∧
             truthy_number x = true ∧ (x <=? 0)%float = false ∧
             active_tray_id body = Some tray ∧ tray ≠ "").
Proof.
  unfold spool_usage, positive_weight, tray_given.
  destruct (used_weight body) as [x|]; [|left; split; [by intros (? & ? & _)|done]].
  rewrite weight_guard. destruct (0 <? x)%float eqn:Hpos; cbn [negb].
  2: { left. split; [|done]. intros (x' & [= <-] & H). congruence. }
  right. destruct (active_tray_id body) as [tray|].
  2: { left. split; [by exists x|]. split; [by intros (? & ? & _)|done]. }
  unfold truthy_string. case_bool_decide as Hne; cbn [negb].
  - left. split; [by exists x|]. split; [|done].
    intros (t & [= <-] & H). done.
  - right. destruct (positive_number x Hpos) as [Htruthy Hle].
    by exists x, tray.
Qed.

Lemma unquote_quote_char c r : unquote (quote_char c ++ r) = Some (c, r).
Proof. destruct c as [[] [] [] [] [] [] [] []]; reflexivity. Qed.

Lemma quoted_inj (l l' : list ascii) :
  flat_map quote_char l = flat_map quote_char l' → l = l'.
Proof.
  revert l'. induction l as [|c l IH]; intros [|c' l'] E; cbn in E.
  - done.
  - apply (f_equal unquote) in E. by rewrite unquote_quote_char in E.
  - apply (f_equal unquote) in E. by rewrite unquote_quote_char in E.
  - apply (f_equal unquote) in E. rewrite !unquote_quote_char in E.
    injection E as -> E. by rewrite (IH l').
Qed.

Lemma JSON_stringify_inj (s p : string) :
  JSON_stringify s = JSON_stringify p → s = p.
Proof.
  unfold JSON_stringify. intros E%(f_equal chars).
  rewrite !list_ascii_of_string_of_list_ascii in E.
  injection E as E%app_inv_tail%quoted_inj. by apply chars_inj.
Qed.
End protocol.

(** X18. The inventory protocol. Every delivery is answered, and the calls
    it makes on the inventory client are, in this order, at most one read
    and then at most one mutation: none when the event is ignored, the read
    alone when nothing matches, the read and the one mutation the response
    reports on a success; a failure follows the read, a mutation or neither. *)
Theorem POST_inventory_protocol env w :
  ∃ resp w' made,
    POST env w = (Ok resp, w') ∧
    calls w' = calls w ++ made ∧
    calls_of_outcome resp made.
Proof.
  unfold POST, try_catch, calls_of_outcome.
  destruct (request_json env) as [body|e] eqn:Hbody.
  2: { rewrite (parse_failure_throws env w e Hbody). answer (@nil ClientCall). }
  rewrite (POST_try_parsed env w body Hbody).
  destruct (spoolmanConnection env) as [[url cl]|];
    [|answer (@nil ClientCall)].
  cbn [client].
  case_bool_decide as Husage;
    [|case_bool_decide as Hchange; [|answer (@nil ClientCall)]].
  - destruct (spool_usage_guarded env cl body (logged w [webhook_record body]))
      as [[reason ->]|(x & tray & Hx & Htruthy & Hle & Htray & Hne)];
      [answer (@nil ClientCall)|].
    rewrite (spool_usage_run env _ _ body x tray) by done.
    destruct (getSpools_result cl) as [spools|e]; [|answer [GetSpools]].
    destruct (head _) as [s|]; [|answer [GetSpools]].
    destruct (useWeight_result cl (id s) x);
      answer [GetSpools; UseWeight (id s) x].
  - rewrite tray_change_run.
    destruct (getSpools_result cl) as [spools|e]; [|answer [GetSpools]].
    destruct (_ ≫= _) as [s|]; [|answer [GetSpools]]. cbn zeta.
    destruct (assignSpoolToTray_result cl (id s) _);
      answer [GetSpools; AssignSpoolToTray (id s) (tray_entity_id body)].
Qed.

(** X19. The broadcast. A delivery broadcasts an event only with a
    successful deduction, and then exactly one: a [usage] event that carries
    the spool, the deducted weight and the new weight of the response,
    stamped with the clock; an assignment, a miss, an ignored event and a
    failure broadcast nothing. *)
Theorem POST_broadcast env w :
  ∃ resp w' sent,
    POST env w = (Ok resp, w') ∧
    emitted w' = emitted w ++ sent ∧
    broadcast_of_outcome env resp sent.
Proof.
  unfold POST, try_catch, broadcast_of_outcome.
  destruct (request_json env) as [body|e] eqn:Hbody.
  2: { rewrite (parse_failure_throws env w e Hbody).
       answer (@nil SpoolUpdateEvent). }
  rewrite (POST_try_parsed env w body Hbody).
  destruct (spoolmanConnection env) as [[url cl]|];
    [|answer (@nil SpoolUpdateEvent)].
  cbn [client].
  case_bool_decide as Husage;
    [|case_bool_decide as Hchange; [|answer (@nil SpoolUpdateEvent)]].
  - destruct (spool_usage_guarded env cl body (logged w [webhook_record body]))
      as [[reason ->]|(x & tray & Hx & Htruthy & Hle & Htray & Hne)];
      [answer (@nil SpoolUpdateEvent)|].
    rewrite (spool_usage_run env _ _ body x tray) by done.
    destruct (getSpools_result cl) as [spools|e];
      [|answer (@nil SpoolUpdateEvent)].
    destruct (head _) as [s|]; [|answer (@nil SpoolUpdateEvent)].
    destruct (useWeight_result cl (id s) x);
      [|answer (@nil SpoolUpdateEvent)].
    answer [usage_event env s x tray].
  - rewrite tray_change_run.
    destruct (getSpools_result cl) as [spools|e];
      [|answer (@nil SpoolUpdateEvent)].
    destruct (_ ≫= _) as [s|]; [|answer (@nil SpoolUpdateEvent)]. cbn zeta.
    destruct (assignSpoolToTray_result cl (id s) _);
      answer (@nil SpoolUpdateEvent).
Qed.

(** X20. The refusals of [spool_usage], for a posted object whose fields
    have the documented types ([used_weight] absent or a number,
    [active_tray_id] absent or a string). With a connection configured, the
    event is refused with the reason [no weight to deduct] exactly when
    [used_weight] is absent or is a number that is not positive (every
    positive number passes, also the infinity that [1e999] parses to); and
    with the reason [no active_tray_id provided] exactly when the weight is
    positive and the tray identifier is absent or empty: the weight is
    checked first. *)
Theorem spool_usage_refusals env w object body conn :
  body_of object = Some body →
  request_json env = Ok body →
  event body = Some "spool_usage" →
  spoolmanConnection env = Some conn →
  ∃ resp w',
    POST env w = (Ok resp, w') ∧
    (json resp = Ignored "no weight to deduct" ↔ ¬ positive_weight body) ∧
    (json resp = Ignored "no active_tray_id provided" ↔
     positive_weight body ∧ ¬ tray_given body).
Proof.
  intros _ Hbody Hevent Hconn.
  unfold POST, try_catch. rewrite (POST_try_parsed env w body Hbody).
  rewrite Hconn, Hevent, bool_decide_eq_true_2 by done.
  destruct (spool_usage_refused env (client conn) body
              (logged w [webhook_record body]))
    as [[Hweight ->]|[(Hweight & Htray & ->)
       |(x & tray & Hx & Hpos & Htruthy & Hle & Htray & Hne)]].
  - eexists _, _. split; [reflexivity|]. cbn. split; [done|].
    split; [by intros [=]|]. by intros [? _].
  - eexists _, _. split; [reflexivity|]. cbn. split; [|done].
    split; [by intros [=]|]. by intros ?.
  - assert (positive_weight body) as Hweight by by exists x.
    assert (tray_given body) as Hgiven by by exists tray.
    rewrite (spool_usage_run env _ _ body x tray) by done.
    assert (∀ resp : Response,
              json resp ≠ Ignored "no weight to deduct" →
              json resp ≠ Ignored "no active_tray_id provided" →
              (json resp = Ignored "no weight to deduct"
               ↔ ¬ positive_weight body) ∧
              (json resp = Ignored "no active_tray_id provided"
               ↔ positive_weight body ∧ ¬ tray_given body)) as Hpassed.
    { intros resp Hw Ht. split; (split; [done|]); [by intros ?|by intros [_ ?]]. }
    destruct (getSpools_result (client conn)) as [spools|e].
    + destruct (head _) as [s|].
      * destruct (useWeight_result _ _ _); eexists _, _;
          (split; [reflexivity|]); by apply Hpassed.
      * eexists _, _. split; [reflexivity|]. by apply Hpassed.
    + eexists _, _. split; [reflexivity|]. by apply Hpassed.
Qed.

Lemma spool_usage_refusals_witness :
  (∃ resp w',
     POST (serving (usage_body 0 "sensor.x1c_ams_1_tray_1")
                   [spool_abs; spool_pla]) fresh = (Ok resp, w') ∧
     (json resp = Ignored "no weight to deduct" ↔
      ¬ positive_weight (usage_body 0 "sensor.x1c_ams_1_tray_1")) ∧
     (json resp = Ignored "no active_tray_id provided" ↔
      positive_weight (usage_body 0 "sensor.x1c_ams_1_tray_1") ∧
      ¬ tray_given (usage_body 0 "sensor.x1c_ams_1_tray_1"))) ∧
  (∃ resp w',
     POST (serving (usage_body infinity "") [spool_abs; spool_pla]) fresh
     = (Ok resp, w') ∧
     (json resp = Ignored "no weight to deduct" ↔
      ¬ positive_weight (usage_body infinity "")) ∧
     (json resp = Ignored "no active_tray_id provided" ↔
      positive_weight (usage_body infinity "") ∧
      ¬ tray_given (usage_body infinity ""))).
Proof.
  split.
  - apply (spool_usage_refusals
             (serving (usage_body 0 "sensor.x1c_ams_1_tray_1")
                      [spool_abs; spool_pla])
             fresh (usage_object 0 "sensor.x1c_ams_1_tray_1")
             (usage_body 0 "sensor.x1c_ams_1_tray_1")
             (answering [spool_abs; spool_pla])).
    + reflexivity.
    + reflexivity.
    + reflexivity.
    + reflexivity.
  - apply (spool_usage_refusals
             (serving (usage_body infinity "") [spool_abs; spool_pla])
             fresh (usage_object infinity "") (usage_body infinity "")
             (answering [spool_abs; spool_pla])).
    + reflexivity.
    + reflexivity.
    + reflexivity.
    + reflexivity.
Defined.

(** X21. Matching compares JSON encodings, and the encoding of a string
    tells the string: a spool carries at most one value under a key, so the
    spool a tray identifier (or a tag) selects is selected by no other one. *)
Theorem carries_one_value key value value' s :
  carries key value s → carries key value' s → value = value'.
Proof.
  unfold carries. intros H H'. apply JSON_stringify_inj. congruence.
Qed.

Lemma carries_one_value_witness :
  ("sensor.x1c_ams_1_tray_1" : string) = "sensor.x1c_ams_1_tray_1".
Proof.
  apply (carries_one_value "active_tray" "sensor.x1c_ams_1_tray_1"
           "sensor.x1c_ams_1_tray_1" spool_pla).
  - vm_compute. reflexivity.
  - vm_compute. reflexivity.
Defined.

(** *** The documentation and the handler *)

Section documentation.
Implicit Types (env : Env) (w : World) (body : Body).





End documentation.



(** X23. The documented payloads are accepted. Every event [GET] documents
    comes with a sample payload that names that event and passes every
    guard of its event: posted to a handler with a connection configured,
    whenever the snapshot read has a spool that carries the sample's value
    of a field (its tray identifier for [spool_usage], its tag for
    [tray_change]), the handler goes on, after the read, to the mutation
    call for the first such spool. *)
Theorem documented_payloads_accepted :
  Forall (λ entry : string * EventDoc,
            ∃ body field key value,
              body_of (payload (snd entry)) = Some body ∧
              event body = Some (fst entry) ∧
              (field, JString value) ∈ payload (snd entry) ∧
              ∀ env w conn spools s others,
                request_json env = Ok body →
                spoolmanConnection env = Some conn →
                getSpools_result (client conn) = Ok spools →
                filter (carries key value) spools = s :: others →
                ∃ resp w' c,
                  POST env w = (Ok resp, w') ∧
                  calls w' = calls w ++ [GetSpools; c] ∧ acts_on c s)
         (events GET).
Proof.
  unfold GET. cbn [events].
  constructor; [|constructor; [|constructor]]; cbn [fst snd payload].
  - eexists _, "active_tray_id", "active_tray", "sensor.x1c_..._tray_1".
    split; [reflexivity|]. split; [reflexivity|].
    split; [rewrite !elem_of_cons; auto 10|].
    intros env w conn spools s others Hbody Hconn Hspools Hmatch.
    unfold POST, try_catch. rewrite (POST_try_parsed env w _ Hbody), Hconn.
    cbn [event]. rewrite bool_decide_eq_true_2 by done.
    rewrite (spool_usage_run env _ _ _ 0x1.f47ae147ae148p+1
               "sensor.x1c_..._tray_1") by done.
    rewrite Hspools, Hmatch. cbn [head].
    destruct (useWeight_result _ _ _); by eexists _, _, (UseWeight _ _).
  - eexists _, "tag_uid", "tag_uid", "...".
    split; [reflexivity|]. split; [reflexivity|].
    split; [rewrite !elem_of_cons; auto 10|].
    intros env w conn spools s others Hbody Hconn Hspools Hmatch.
    unfold POST, try_catch. rewrite (POST_try_parsed env w _ Hbody), Hconn.
    cbn [event].
    rewrite bool_decide_eq_false_2, bool_decide_eq_true_2 by done.
    rewrite tray_change_run, Hspools. cbn [tag_uid usable_tag].
    rewrite decide_False by (intros [?|?]; discriminate).
    cbn [mbind option_bind]. rewrite Hmatch. cbn [head]. cbn zeta.
    destruct (assignSpoolToTray_result _ _ _);
      by eexists _, _, (AssignSpoolToTray _ _).
Qed.
